(** * monetra-core: exact monetary arithmetic on scaled integers

    A shallow embedding of the rounding engine ([rounding/index.ts]), the
    arithmetic operators ([money/arithmetic.ts]), the allocation engine
    ([money/allocation.ts]), the decimal parser ([format/parser.ts]) and
    the comparison methods of the [Money] value object ([money/Money.ts]).

    Conventions of the embedding:
    - a JavaScript [bigint] is a [Z]; [a / b] on bigints is [Z.quot] and
      [a % b] is [Z.rem] (both truncate toward zero), and both raise a
      runtime [RangeError] when [b] is [0n];
    - a string is a [string] whose characters stand for code units below
      256;
    - a [number] that the code only ever reads through [toString()] or
      compares with [0] is carried by its [toString()] rendering;
    - a thrown exception is the [Throw] case of [result]. *)

From Stdlib Require Import ZArith List String Ascii Bool Lia.
From Stdlib Require Import Permutation Sorted.
Import ListNotations.

Local Open Scope Z_scope.

(** ** Exceptions and the exception monad *)

(** The exception classes the modelled code can raise.  [Error] is the
    plain [new Error(message)]; [RangeError], [SyntaxError] and [TypeError]
    are raised by the runtime itself (bigint division by zero,
    [BigInt(string)] on a non-numeric string, property access on
    [undefined]); the remaining ones are the library's own subclasses of
    [MonetraError].  Of an exception the class and the data the claims
    read are kept: the message of a plain [Error], the two counts inside
    the message of [InvalidPrecisionError], the operation name of
    [RoundingRequiredError] (its second argument, a floating-point
    rendering of the unrounded result, is left out) and the two currency
    codes of [CurrencyMismatchError]. *)
Inductive JsError : Type :=
| Error (message : string)
| RangeError
| SyntaxError
| TypeError
| InvalidPrecisionError (precision decimals : nat)
| RoundingRequiredError (operation : string)
| CurrencyMismatchError (expected received : string).

Inductive result (A : Type) : Type :=
| Ok (value : A)
| Throw (e : JsError).

Arguments Ok {A} value.
Arguments Throw {A} e.

Definition bind {A B : Type} (c : result A) (k : A -> result B) : result B :=
  match c with
  | Ok a => k a
  | Throw e => Throw e
  end.

Declare Scope js_scope.
Delimit Scope js_scope with js.
Notation "x <- c ;; k" := (bind c (fun x => k))
  (at level 61, c at next level, right associativity) : js_scope.
Notation "' pat <- c ;; k" := (bind c (fun x => match x with pat => k end))
  (at level 61, pat pattern, c at next level, right associativity) : js_scope.
Notation "'check' c ;; k" := (bind c (fun _ : unit => k))
  (at level 61, c at next level, right associativity) : js_scope.
Local Open Scope js_scope.

(** [if (cond) throw e;] *)
Definition throw_if (cond : bool) (e : JsError) : result unit :=
  if cond then Throw e else Ok tt.

(** ** bigint primitives *)

Definition bigint_div (a b : Z) : result Z :=
  if b =? 0 then Throw RangeError else Ok (Z.quot a b).

Definition bigint_rem (a b : Z) : result Z :=
  if b =? 0 then Throw RangeError else Ok (Z.rem a b).

(** ** Rounding engine: [rounding/strategies.ts], [rounding/index.ts] *)

Module Rounding.

Inductive RoundingMode : Type :=
| HALF_UP
| HALF_DOWN
| HALF_EVEN
| FLOOR
| CEIL
| TRUNCATE.

(** The [default] branch of the source's [switch], which throws for a value
    outside the enumeration, has no counterpart: [RoundingMode] is closed. *)
Definition divideWithRounding (numerator denominator : Z) (mode : RoundingMode)
  : result Z :=
  check throw_if (denominator =? 0) (Error "Division by zero") ;;
  quotient <- bigint_div numerator denominator ;;
  remainder <- bigint_rem numerator denominator ;;
  if remainder =? 0 then Ok quotient
  else
    let isNegativeResult := xorb (numerator <? 0) (denominator <? 0) in
    let isPositiveResult := negb isNegativeResult in
    let absRemainder := if remainder <? 0 then - remainder else remainder in
    let absDenominator := if denominator <? 0 then - denominator else denominator in
    let isHalf := absRemainder * 2 =? absDenominator in
    let isMoreThanHalf := absRemainder * 2 >? absDenominator in
    match mode with
    | FLOOR => Ok (if isPositiveResult then quotient else quotient - 1)
    | CEIL => Ok (if isPositiveResult then quotient + 1 else quotient)
    | HALF_UP =>
        if isMoreThanHalf || isHalf
        then Ok (if isPositiveResult then quotient + 1 else quotient - 1)
        else Ok quotient
    | HALF_DOWN =>
        if isMoreThanHalf
        then Ok (if isPositiveResult then quotient + 1 else quotient - 1)
        else Ok quotient
    | HALF_EVEN =>
        if isMoreThanHalf
        then Ok (if isPositiveResult then quotient + 1 else quotient - 1)
        else if isHalf
        then
          if negb (Z.rem quotient 2 =? 0)
          then Ok (if isPositiveResult then quotient + 1 else quotient - 1)
          else Ok quotient
        else Ok quotient
    | TRUNCATE => Ok quotient
    end.

End Rounding.

Export Rounding.

(** The policy table of the specification, written from its words: the
    truncated quotient [q], the remainder [r], the sign of the exact
    quotient, and the comparison of [2 * |r|] with [|denominator|]. *)
Module PolicyTable.

Inductive fraction : Type := LessThanHalf | ExactlyHalf | MoreThanHalf.

Definition classify (r d : Z) : fraction :=
  match 2 * Z.abs r ?= Z.abs d with
  | Lt => LessThanHalf
  | Eq => ExactlyHalf
  | Gt => MoreThanHalf
  end.

(** numerator and denominator have the same sign *)
Definition positive_result (n d : Z) : bool := Bool.eqb (n <? 0) (d <? 0).

(** increment the magnitude of [q] by one, away from zero *)
Definition away (positive : bool) (q : Z) : Z :=
  if positive then q + 1 else q - 1.

Definition entry (mode : RoundingMode) (positive : bool) (f : fraction) (q : Z) : Z :=
  match mode, f with
  | FLOOR, _ => if positive then q else q - 1
  | CEIL, _ => if positive then q + 1 else q
  | TRUNCATE, _ => q
  | HALF_UP, LessThanHalf => q
  | HALF_UP, _ => away positive q
  | HALF_DOWN, MoreThanHalf => away positive q
  | HALF_DOWN, _ => q
  | HALF_EVEN, LessThanHalf => q
  | HALF_EVEN, ExactlyHalf => if Z.odd q then away positive q else q
  | HALF_EVEN, MoreThanHalf => away positive q
  end.

Definition lookup (n d : Z) (mode : RoundingMode) : Z :=
  entry mode (positive_result n d) (classify (Z.rem n d) d) (Z.quot n d).

End PolicyTable.

(** ** Strings, regular-expression tests and [BigInt(string)] *)

Module JsString.

Definition code (c : ascii) : nat := nat_of_ascii c.

Definition is_digit (c : ascii) : bool :=
  ((48 <=? code c) && (code c <=? 57))%nat.

(** [/[eE]/] *)
Definition is_exponent_mark (c : ascii) : bool :=
  ((code c =? 101) || (code c =? 69))%nat.

(** the complement of the class [[0-9.-]] *)
Definition is_outside_decimal_class (c : ascii) : bool :=
  negb (is_digit c || (code c =? 46) || (code c =? 45))%nat.

(** [regexp.test(s)] for a regular expression that is one character class *)
Fixpoint test (class : ascii -> bool) (s : string) : bool :=
  match s with
  | EmptyString => false
  | String c rest => class c || test class rest
  end.

(** [s.split(sep)] for a one-character separator *)
Fixpoint split (sep : ascii) (s : string) : list string :=
  match s with
  | EmptyString => [EmptyString]
  | String c rest =>
      if Ascii.eqb c sep then EmptyString :: split sep rest
      else match split sep rest with
           | [] => [String c EmptyString]
           | part :: parts => String c part :: parts
           end
  end.

(** [parts[i] || ""]: a missing or empty element reads as the empty string *)
Definition part_or_empty (parts : list string) (i : nat) : string :=
  nth i parts EmptyString.

Fixpoint repeat_char (c : ascii) (n : nat) : string :=
  match n with
  | O => EmptyString
  | S k => String c (repeat_char c k)
  end.

(** [s.padEnd(targetLength, c)] for a one-character filler *)
Definition padEnd (s : string) (targetLength : nat) (c : ascii) : string :=
  (s ++ repeat_char c (targetLength - String.length s))%string.

(** StrWhiteSpaceChar, restricted to code units below 256 *)
Definition is_whitespace (c : ascii) : bool :=
  ((code c =? 9) || (code c =? 10) || (code c =? 11) || (code c =? 12)
   || (code c =? 13) || (code c =? 32) || (code c =? 160))%nat.

Fixpoint drop_while (p : ascii -> bool) (l : list ascii) : list ascii :=
  match l with
  | [] => []
  | c :: rest => if p c then drop_while p rest else l
  end.

Definition trim (s : string) : string :=
  string_of_list_ascii
    (rev (drop_while is_whitespace
            (rev (drop_while is_whitespace (list_ascii_of_string s))))).

Definition digit_value (radix : Z) (c : ascii) : option Z :=
  let n := Z.of_nat (code c) in
  let v := if is_digit c then n - 48
           else if ((97 <=? code c) && (code c <=? 102))%nat then n - 87
           else if ((65 <=? code c) && (code c <=? 70))%nat then n - 55
           else radix in
  if v <? radix then Some v else None.

Fixpoint digits_value (radix acc : Z) (s : string) : option Z :=
  match s with
  | EmptyString => Some acc
  | String c rest =>
      match digit_value radix c with
      | Some v => digits_value radix (acc * radix + v) rest
      | None => None
      end
  end.

(** one or more digits of the given radix *)
Definition numeral (radix : Z) (s : string) : option Z :=
  match s with
  | EmptyString => None
  | _ => digits_value radix 0 s
  end.

(** StringToBigInt: optional white space around either nothing (zero), a
    signed decimal integer, or an unsigned binary, octal or hexadecimal
    literal. *)
Definition StringToBigInt (s : string) : option Z :=
  match trim s with
  | EmptyString => Some 0
  | String c rest =>
      if (code c =? 43)%nat then numeral 10 rest
      else if (code c =? 45)%nat then option_map Z.opp (numeral 10 rest)
      else
        match rest with
        | String p body =>
            if ((code c =? 48) && ((code p =? 120) || (code p =? 88)))%nat
            then numeral 16 body
            else if ((code c =? 48) && ((code p =? 111) || (code p =? 79)))%nat
            then numeral 8 body
            else if ((code c =? 48) && ((code p =? 98) || (code p =? 66)))%nat
            then numeral 2 body
            else numeral 10 (String c rest)
        | EmptyString => numeral 10 (String c rest)
        end
  end.

(** [BigInt(s)] on a string argument *)
Definition BigInt (s : string) : result Z :=
  match StringToBigInt s with
  | Some v => Ok v
  | None => Throw SyntaxError
  end.

(** [s.padStart(targetLength, c)] for a one-character filler *)
Definition padStart (s : string) (targetLength : nat) (c : ascii) : string :=
  (repeat_char c (targetLength - String.length s) ++ s)%string.

Definition digit_char (d : Z) : ascii := ascii_of_nat (48 + Z.to_nat d).

(** the decimal digits of a natural number, most significant first, put in
    front of [acc]; [fuel] bounds the number of digits *)
Fixpoint digits_onto (fuel : nat) (n : Z) (acc : string) : string :=
  match fuel with
  | O => acc
  | S fuel' =>
      let acc' := String (digit_char (n mod 10)) acc in
      if n <? 10 then acc' else digits_onto fuel' (n / 10) acc'
  end.

(** a natural number has at most [log2 n + 1] decimal digits *)
Definition natural_toString (n : Z) : string :=
  digits_onto (S (Z.to_nat (Z.log2 n))) n EmptyString.

(** [n.toString()] on a bigint: decimal digits without leading zeros, with
    a minus sign in front of a negative number *)
Definition bigint_toString (n : Z) : string :=
  if n <? 0 then String "-" (natural_toString (- n)) else natural_toString n.

End JsString.

(** ** [Map<string, V>]: keys in insertion order, each key once *)

Module JsMap.

Definition t (V : Type) : Type := list (string * V).

Definition empty {V : Type} : t V := [].

Fixpoint get {V : Type} (m : t V) (key : string) : option V :=
  match m with
  | [] => None
  | (k, v) :: rest => if String.eqb k key then Some v else get rest key
  end.

Definition has {V : Type} (m : t V) (key : string) : bool :=
  match get m key with
  | Some _ => true
  | None => false
  end.

(** [m.set(key, value)]: an existing key keeps its place, a new key goes
    to the end *)
Fixpoint set {V : Type} (m : t V) (key : string) (value : V) : t V :=
  match m with
  | [] => [(key, value)]
  | (k, v) :: rest =>
      if String.eqb k key then (k, value) :: rest
      else (k, v) :: set rest key value
  end.

Definition keys {V : Type} (m : t V) : list string := map fst m.

Definition values {V : Type} (m : t V) : list V := map snd m.

End JsMap.

(** ** JSON values, as [JSON.parse] hands them to a reviver *)

(** A number is carried by its rendering; an object has each key once. *)
#[warnings="-register-all"] Inductive json : Type :=
| JNull
| JBoolean (b : bool)
| JNumber (rendering : string)
| JString (s : string)
| JArray (items : list json)
| JObject (fields : list (string * json)).

(** A scalar argument of type [string | number].  A number is carried by
    its [toString()] rendering; the numbers [0] and [-0] are the only ones
    rendered as ["0"]. *)
Inductive scalar : Type :=
| Num (rendering : string)
| Str (s : string).

Definition toString (x : scalar) : string :=
  match x with
  | Num rendering => rendering
  | Str s => s
  end.

(** [x === 0] *)
Definition is_number_zero (x : scalar) : bool :=
  match x with
  | Num rendering => String.eqb rendering "0"
  | Str _ => false
  end.

(** [x === "0"] *)
Definition is_string_zero (x : scalar) : bool :=
  match x with
  | Num _ => false
  | Str s => String.eqb s "0"
  end.

(** ** Arithmetic operators: [money/arithmetic.ts] *)

Module Arithmetic.

Record Ratio : Type := mkRatio { numerator : Z; denominator : Z }.

Definition add (a b : Z) : Z := a + b.

Definition subtract (a b : Z) : Z := a - b.

Definition parseMultiplier (multiplier : scalar) : result Ratio :=
  let s := toString multiplier in
  check throw_if (JsString.test JsString.is_exponent_mark s)
        (Error "Scientific notation not supported") ;;
  let parts := JsString.split "." s in
  check throw_if (2 <? List.length parts)%nat (Error "Invalid number format") ;;
  let integerPart := nth 0 parts EmptyString in
  let fractionalPart := JsString.part_or_empty parts 1 in
  let denominator := 10 ^ Z.of_nat (String.length fractionalPart) in
  numerator <- JsString.BigInt (integerPart ++ fractionalPart)%string ;;
  Ok (mkRatio numerator denominator).

Definition multiply (amount : Z) (multiplier : scalar)
  (rounding : option RoundingMode) : result Z :=
  r <- parseMultiplier multiplier ;;
  let product := amount * numerator r in
  rem <- bigint_rem product (denominator r) ;;
  if rem =? 0 then bigint_div product (denominator r)
  else
    match rounding with
    | None => Throw (RoundingRequiredError "multiply")
    | Some mode => divideWithRounding product (denominator r) mode
    end.

Definition divide (amount : Z) (divisor : scalar)
  (rounding : option RoundingMode) : result Z :=
  r <- parseMultiplier divisor ;;
  let product := amount * denominator r in
  rem <- bigint_rem product (numerator r) ;;
  if rem =? 0 then bigint_div product (numerator r)
  else
    match rounding with
    | None => Throw (RoundingRequiredError "divide")
    | Some mode => divideWithRounding product (numerator r) mode
    end.

End Arithmetic.

(** ** Decimal parser: [format/parser.ts] *)

Record Currency : Type := mkCurrency {
  code : string;
  decimals : nat;
  symbol : string;
  locale : option string
}.

Module Parser.

Definition parseToMinor (amount : string) (currency : Currency) : result Z :=
  check throw_if (JsString.test JsString.is_exponent_mark amount)
        (Error "Scientific notation not supported") ;;
  check throw_if (JsString.test JsString.is_outside_decimal_class amount)
        (Error "Invalid characters in amount") ;;
  check throw_if (negb (JsString.test JsString.is_digit amount))
        (Error "Invalid format") ;;
  let parts := JsString.split "." amount in
  check throw_if (2 <? List.length parts)%nat
        (Error "Invalid format: multiple decimal points") ;;
  let integerPart := nth 0 parts EmptyString in
  let fractionalPart := JsString.part_or_empty parts 1 in
  check throw_if (decimals currency <? String.length fractionalPart)%nat
        (InvalidPrecisionError (String.length fractionalPart) (decimals currency)) ;;
  let paddedFractional := JsString.padEnd fractionalPart (decimals currency) "0" in
  let combined := (integerPart ++ paddedFractional)%string in
  JsString.BigInt combined.

End Parser.

(** ** Currency registry: [currency/registry.ts]

    The module-level [registry] map is passed explicitly. *)

Module Registry.

Definition t : Type := JsMap.t Currency.

Definition registerCurrency (registry : t) (currency : Currency) : t :=
  JsMap.set registry (code currency) currency.

Definition getCurrency (registry : t) (code : string) : result Currency :=
  match JsMap.get registry code with
  | Some currency => Ok currency
  | None => Throw (Error ("Currency '" ++ code ++ "' not found in registry.")%string)
  end.

Definition isCurrencyRegistered (registry : t) (code : string) : bool :=
  JsMap.has registry code.

End Registry.

(** ** Allocation engine: [money/allocation.ts] *)

Module Allocation.

Record ScaledRatio : Type := mkScaledRatio { value : Z; ratio_decimals : nat }.

Record Entry : Type := mkEntry { share : Z; remainder : Z; index : nat }.

(** [array.map(f)] with a callback that may throw *)
Fixpoint map_throwing {A B : Type} (f : A -> result B) (l : list A)
  : result (list B) :=
  match l with
  | [] => Ok []
  | x :: rest =>
      y <- f x ;;
      ys <- map_throwing f rest ;;
      Ok (y :: ys)
  end.

(** the callback of [ratios.map] that scales one ratio to an integer; the
    ratio, a [number], is given by its rendering [r.toString()] *)
Definition scaleRatio (r : string) : result ScaledRatio :=
  let s := r in
  check throw_if (JsString.test JsString.is_exponent_mark s)
        (Error "Scientific notation not supported") ;;
  let parts := JsString.split "." s in
  let decimals := String.length (JsString.part_or_empty parts 1) in
  value <- JsString.BigInt
             (nth 0 parts EmptyString ++ JsString.part_or_empty parts 1)%string ;;
  Ok (mkScaledRatio value decimals).

(** [Math.max(...xs)] on a non-empty list of non-negative integers *)
Definition max_of (xs : list nat) : nat := fold_right Nat.max O xs.

Definition normalize (scaledRatios : list ScaledRatio) : list Z :=
  let maxDecimals := max_of (map ratio_decimals scaledRatios) in
  map (fun r =>
         let factor := 10 ^ Z.of_nat (maxDecimals - ratio_decimals r) in
         value r * factor)
      scaledRatios.

Definition sum_of (xs : list Z) : Z := fold_left (fun sum r => sum + r) xs 0.

(** the loop that computes the truncated shares, from index [i] on *)
Fixpoint shares_loop (amount total : Z) (i : nat) (normalizedRatios : list Z)
  (results : list Entry) (allocatedTotal : Z) : result (list Entry * Z) :=
  match normalizedRatios with
  | [] => Ok (results, allocatedTotal)
  | ratio :: rest =>
      share <- bigint_div (amount * ratio) total ;;
      remainder <- bigint_rem (amount * ratio) total ;;
      shares_loop amount total (S i) rest
        (results ++ [mkEntry share remainder i]) (allocatedTotal + share)
  end.

(** [Array.prototype.sort] is stable; for a consistent comparator its
    result is the one of a stable insertion sort: an element goes before
    the first element of the sorted tail it does not compare greater
    than. *)
Fixpoint insert_by {A : Type} (cmp : A -> A -> Z) (x : A) (l : list A) : list A :=
  match l with
  | [] => [x]
  | y :: rest => if cmp x y <=? 0 then x :: l else y :: insert_by cmp x rest
  end.

Definition sort_by {A : Type} (cmp : A -> A -> Z) (l : list A) : list A :=
  fold_right (insert_by cmp) [] l.

(** sort by remainder, descending *)
Definition by_remainder_desc (a b : Entry) : Z :=
  if remainder b >? remainder a then 1
  else if remainder b <? remainder a then -1
  else 0.

(** sort back by index *)
Definition by_index (a b : Entry) : Z := Z.of_nat (index a) - Z.of_nat (index b).

Definition add_unit (e : Entry) : Entry :=
  mkEntry (share e + 1) (remainder e) (index e).

(** [results[i] = e] for an index inside the array *)
Fixpoint set_nth {A : Type} (i : nat) (e : A) (l : list A) : list A :=
  match l, i with
  | [], _ => []
  | _ :: rest, O => e :: rest
  | x :: rest, S k => x :: set_nth k e rest
  end.

(** [for (let i = ...; i < Number(leftOver); i++) results[i].share += 1n],
    with [count] iterations left; reading [results[i]] past the end gives
    [undefined], whose property access raises a [TypeError]. *)
Fixpoint distribute_loop (count i : nat) (results : list Entry)
  : result (list Entry) :=
  match count with
  | O => Ok results
  | S k =>
      match nth_error results i with
      | None => Throw TypeError
      | Some e => distribute_loop k (S i) (set_nth i (add_unit e) results)
      end
  end.

Definition allocate (amount : Z) (ratios : list string) : result (list Z) :=
  check throw_if (List.length ratios =? 0)%nat
        (Error "Cannot allocate to empty ratios") ;;
  scaledRatios <- map_throwing scaleRatio ratios ;;
  let normalizedRatios := normalize scaledRatios in
  let total := sum_of normalizedRatios in
  check throw_if (total =? 0) (Error "Total ratio must be greater than zero") ;;
  '(results, allocatedTotal) <- shares_loop amount total 0 normalizedRatios [] 0 ;;
  let leftOver := amount - allocatedTotal in
  let results := sort_by by_remainder_desc results in
  results <- distribute_loop (Z.to_nat leftOver) 0 results ;;
  let results := sort_by by_index results in
  Ok (map share results).

End Allocation.

(** ** Value object: [money/guards.ts], [money/Money.ts] *)

Module Money.

Record Money : Type := mkMoney { minor : Z; currency : Currency }.

(** The argument of the binary methods: a [Money], a string of major
    units, or minor units given as a bigint or an integral number. *)
Inductive operand : Type :=
| OfMoney (m : Money)
| OfMajor (amount : string)
| OfMinor (minor : Z).

Definition assertSameCurrency (a b : Money) : result unit :=
  throw_if (negb (String.eqb (code (currency a)) (code (currency b))))
    (CurrencyMismatchError (code (currency a)) (code (currency b))).

Definition fromMinor (minor : Z) (currency : Currency) : Money :=
  mkMoney minor currency.

Definition fromMajor (amount : string) (currency : Currency) : result Money :=
  minor <- Parser.parseToMinor amount currency ;;
  Ok (mkMoney minor currency).

Definition resolveOther (this : Money) (other : operand) : result Money :=
  match other with
  | OfMoney m => Ok m
  | OfMajor amount => fromMajor amount (currency this)
  | OfMinor minor => Ok (fromMinor minor (currency this))
  end.

Definition multiply (this : Money) (multiplier : scalar)
  (rounding : option RoundingMode) : result Money :=
  result <- Arithmetic.multiply (minor this) multiplier rounding ;;
  Ok (mkMoney result (currency this)).

Definition divide (this : Money) (divisor : scalar)
  (rounding : option RoundingMode) : result Money :=
  check throw_if (is_number_zero divisor || is_string_zero divisor)
        (Error "Division by zero") ;;
  result <- Arithmetic.divide (minor this) divisor rounding ;;
  Ok (mkMoney result (currency this)).

Definition allocate (this : Money) (ratios : list string) : result (list Money) :=
  shares <- Allocation.allocate (minor this) ratios ;;
  Ok (map (fun share => mkMoney share (currency this)) shares).

Definition equals (this : Money) (other : operand) : result bool :=
  otherMoney <- resolveOther this other ;;
  Ok (String.eqb (code (currency this)) (code (currency otherMoney))
      && (minor this =? minor otherMoney)).

Definition greaterThan (this : Money) (other : operand) : result bool :=
  otherMoney <- resolveOther this other ;;
  check assertSameCurrency this otherMoney ;;
  Ok (minor this >? minor otherMoney).

Definition lessThan (this : Money) (other : operand) : result bool :=
  otherMoney <- resolveOther this other ;;
  check assertSameCurrency this otherMoney ;;
  Ok (minor this <? minor otherMoney).

Definition greaterThanOrEqual (this : Money) (other : operand) : result bool :=
  otherMoney <- resolveOther this other ;;
  check assertSameCurrency this otherMoney ;;
  Ok (minor this >=? minor otherMoney).

Definition lessThanOrEqual (this : Money) (other : operand) : result bool :=
  otherMoney <- resolveOther this other ;;
  check assertSameCurrency this otherMoney ;;
  Ok (minor this <=? minor otherMoney).

Definition compare (this : Money) (other : operand) : result Z :=
  otherMoney <- resolveOther this other ;;
  check assertSameCurrency this otherMoney ;;
  if minor this <? minor otherMoney then Ok (-1)
  else if minor this >? minor otherMoney then Ok 1
  else Ok 0.

(** [Money.resolveCurrency]: a code is looked up in the registry, a
    [Currency] object is taken as it is.  The methods below that accept
    [Currency | string] are modelled on [Currency] objects; where the source
    passes a code, [resolveCurrency] comes first. *)
Definition resolveCurrency (registry : Registry.t) (currency : string + Currency)
  : result Currency :=
  match currency with
  | inl code => Registry.getCurrency registry code
  | inr currency => Ok currency
  end.

Definition zero (currency : Currency) : Money := mkMoney 0 currency.

Definition add (this : Money) (other : operand) : result Money :=
  otherMoney <- resolveOther this other ;;
  check assertSameCurrency this otherMoney ;;
  Ok (mkMoney (Arithmetic.add (minor this) (minor otherMoney)) (currency this)).

Definition subtract (this : Money) (other : operand) : result Money :=
  otherMoney <- resolveOther this other ;;
  check assertSameCurrency this otherMoney ;;
  Ok (mkMoney (Arithmetic.subtract (minor this) (minor otherMoney)) (currency this)).

Definition abs (this : Money) : Money :=
  mkMoney (if minor this <? 0 then - minor this else minor this) (currency this).

Definition negate (this : Money) : Money :=
  mkMoney (- minor this) (currency this).

Definition isPositive (this : Money) : bool := minor this >? 0.

Definition isZero (this : Money) : bool := minor this =? 0.

Definition isNegative (this : Money) : bool := minor this <? 0.

(** [guards.ts] *)
Definition assertNonNegative (money : Money) : result unit :=
  throw_if (isNegative money) (Error "Money value must be non-negative").

(** [array.reduce(callback)] without an initial value, on the elements
    after the first, with a callback that may throw *)
Fixpoint reduce_throwing {A : Type} (callback : A -> A -> result A)
  (accumulator : A) (rest : list A) : result A :=
  match rest with
  | [] => Ok accumulator
  | current :: rest' =>
      accumulator' <- callback accumulator current ;;
      reduce_throwing callback accumulator' rest'
  end.

Definition min (values : list Money) : result Money :=
  match values with
  | [] => Throw (Error "At least one Money value required")
  | first :: rest =>
      reduce_throwing
        (fun min current =>
           check assertSameCurrency min current ;;
           less <- lessThan current (OfMoney min) ;;
           Ok (if less then current else min))
        first rest
  end.

Definition max (values : list Money) : result Money :=
  match values with
  | [] => Throw (Error "At least one Money value required")
  | first :: rest =>
      reduce_throwing
        (fun max current =>
           check assertSameCurrency max current ;;
           greater <- greaterThan current (OfMoney max) ;;
           Ok (if greater then current else max))
        first rest
  end.

Definition clamp (this min max : Money) : result Money :=
  check assertSameCurrency this min ;;
  check assertSameCurrency this max ;;
  inverted <- greaterThan min (OfMoney max) ;;
  check throw_if inverted (Error "Clamp min cannot be greater than max") ;;
  below <- lessThan this (OfMoney min) ;;
  if below then Ok (mkMoney (minor min) (currency this))
  else
    above <- greaterThan this (OfMoney max) ;;
    if above then Ok (mkMoney (minor max) (currency this))
    else Ok this.

(** [Array(parts).fill(1)] for a non-negative integer [parts], then
    [allocate] *)
Definition split (this : Money) (parts : nat) : result (list Money) :=
  let ratios := repeat "1"%string parts in
  allocate this ratios.

Definition toDecimalString (this : Money) : result string :=
  let decimals := decimals (currency this) in
  let isNegative := minor this <? 0 in
  let absMinor := if isNegative then - minor this else minor this in
  if (decimals =? 0)%nat
  then Ok (if isNegative
           then String "-" (JsString.bigint_toString absMinor)
           else JsString.bigint_toString absMinor)
  else
    let divisor := 10 ^ Z.of_nat decimals in
    integerPart <- bigint_div absMinor divisor ;;
    fractionalPart <- bigint_rem absMinor divisor ;;
    let fractionalStr :=
      JsString.padStart (JsString.bigint_toString fractionalPart) decimals "0" in
    let result :=
      (JsString.bigint_toString integerPart ++ "." ++ fractionalStr)%string in
    Ok (if isNegative then String "-" result else result).

(** the object returned by [toJSON] *)
Record MoneyJSON : Type := mkMoneyJSON {
  json_amount : string;
  json_currency : string;
  json_precision : nat
}.

Definition toJSON (this : Money) : MoneyJSON :=
  mkMoneyJSON (JsString.bigint_toString (minor this)) (code (currency this))
    (decimals (currency this)).

(** the JSON value that the object of [toJSON] is serialized to and parsed
    back as *)
Definition json_of (o : MoneyJSON) : json :=
  JObject [("amount"%string, JString (json_amount o));
           ("currency"%string, JString (json_currency o));
           ("precision"%string,
            JNumber (JsString.bigint_toString (Z.of_nat (json_precision o))))].

Fixpoint field (fields : list (string * json)) (name : string) : option json :=
  match fields with
  | [] => None
  | (k, v) :: rest => if String.eqb k name then Some v else field rest name
  end.

(** what [reviver] returns: a [Money], or the value it was given *)
Inductive revived : Type :=
| AsMoney (m : Money)
| AsValue (value : json).

Definition reviver (registry : Registry.t) (key : string) (value : json)
  : result revived :=
  match value with
  | JObject fields =>
      match field fields "amount", field fields "currency", field fields "precision" with
      | Some (JString amount), Some (JString currency), Some (JNumber _) =>
          minor <- JsString.BigInt amount ;;
          currency <- resolveCurrency registry (inl currency) ;;
          Ok (AsMoney (fromMinor minor currency))
      | _, _, _ => Ok (AsValue value)
      end
  | _ => Ok (AsValue value)
  end.

End Money.

(** ** Wallet: [money/MoneyBag.ts]

    The bag's [contents] map is passed explicitly; a method that mutates it
    returns the new map.  [total] goes through [Converter.convert], whose
    floating-point rate arithmetic is outside this development. *)

Module MoneyBag.

Definition t : Type := JsMap.t Money.Money.

Definition add (contents : t) (money : Money.Money) : result t :=
  let code := code (Money.currency money) in
  match JsMap.get contents code with
  | Some existing =>
      sum <- Money.add existing (Money.OfMoney money) ;;
      Ok (JsMap.set contents code sum)
  | None => Ok (JsMap.set contents code money)
  end.

Definition subtract (contents : t) (money : Money.Money) : result t :=
  let code := code (Money.currency money) in
  match JsMap.get contents code with
  | Some existing =>
      difference <- Money.subtract existing (Money.OfMoney money) ;;
      Ok (JsMap.set contents code difference)
  | None =>
      let zero := Money.zero (Money.currency money) in
      difference <- Money.subtract zero (Money.OfMoney money) ;;
      Ok (JsMap.set contents code difference)
  end.

Definition get (registry : Registry.t) (contents : t) (currency : string + Currency)
  : result Money.Money :=
  let code := match currency with
              | inl code => code
              | inr currency => code currency
              end in
  match JsMap.get contents code with
  | Some money => Ok money
  | None =>
      currency <- Money.resolveCurrency registry currency ;;
      Ok (Money.zero currency)
  end.

Definition getAll (contents : t) : list Money.Money := JsMap.values contents.

Definition toJSON (contents : t) : list Money.MoneyJSON :=
  map Money.toJSON (getAll contents).

End MoneyBag.

(** ** Malformed literals, as the specification words them *)

Module Literal.

Definition chars (s : string) : list ascii := list_ascii_of_string s.

Definition one_of (class : string) (c : ascii) : bool :=
  existsb (Ascii.eqb c) (chars class).

(** scientific notation: an [e] or an [E] *)
Definition has_exponent (s : string) : bool := existsb (one_of "eE") (chars s).

(** a character outside digits, point and minus *)
Definition has_foreign_character (s : string) : bool :=
  existsb (fun c => negb (one_of "0123456789.-" c)) (chars s).

Definition decimal_points (s : string) : nat :=
  List.length (filter (Ascii.eqb ".") (chars s)).

(** no digits at all *)
Definition has_no_digit (s : string) : bool :=
  forallb (fun c => negb (one_of "0123456789" c)) (chars s).

Definition malformed (s : string) : bool :=
  has_exponent s || has_foreign_character s || (1 <? decimal_points s)%nat
  || has_no_digit s.

(** what follows the decimal point *)
Fixpoint fractional_part (s : string) : string :=
  match s with
  | EmptyString => EmptyString
  | String c rest => if Ascii.eqb c "." then rest else fractional_part rest
  end.

End Literal.

(** ** Decimal numerals and wallet histories, for stating properties *)

Module Decimal.

Definition all_digits (s : string) : bool :=
  forallb (Literal.one_of "0123456789") (Literal.chars s).

Fixpoint value_from (acc : Z) (s : string) : Z :=
  match s with
  | EmptyString => acc
  | String c rest => value_from (acc * 10 + (Z.of_nat (nat_of_ascii c) - 48)) rest
  end.

(** the number a string of decimal digits denotes *)
Definition value (s : string) : Z := value_from 0 s.

End Decimal.

Module Wallet.

Inductive operation : Type :=
| Deposit (money : Money.Money)
| Withdraw (money : Money.Money).

(** a sequence of [bag.add] and [bag.subtract] calls *)
Fixpoint run (operations : list operation) (contents : MoneyBag.t)
  : result MoneyBag.t :=
  match operations with
  | [] => Ok contents
  | Deposit money :: rest =>
      contents' <- MoneyBag.add contents money ;;
      run rest contents'
  | Withdraw money :: rest =>
      contents' <- MoneyBag.subtract contents money ;;
      run rest contents'
  end.

(** minor units deposited minus minor units withdrawn under a code *)
Fixpoint net (operations : list operation) (currencyCode : string) : Z :=
  match operations with
  | [] => 0
  | Deposit money :: rest =>
      (if String.eqb (code (Money.currency money)) currencyCode
       then Money.minor money else 0)
      + net rest currencyCode
  | Withdraw money :: rest =>
      (if String.eqb (code (Money.currency money)) currencyCode
       then - Money.minor money else 0)
      + net rest currencyCode
  end.

(** each key is the currency code of its value, and occurs once *)
Definition well_keyed (contents : MoneyBag.t) : Prop :=
  NoDup (JsMap.keys contents)
  /\ Forall (fun entry => code (Money.currency (snd entry)) = fst entry) contents.

(** the minor units held under a code, none when the code is absent *)
Definition balance (contents : MoneyBag.t) (currencyCode : string) : Z :=
  match JsMap.get contents currencyCode with
  | Some money => Money.minor money
  | None => 0
  end.

End Wallet.

(** ** The largest-remainder rule, as the specification words it *)

Module LargestRemainder.

(** index [j] is served before index [i]: larger remainder first, equal
    remainders by original index ascending *)
Definition precedes (remainders : list Z) (j i : nat) : bool :=
  (nth i remainders 0 <? nth j remainders 0)
  || ((nth j remainders 0 =? nth i remainders 0) && (j <? i)%nat).

(** the number of indices served before [i] *)
Definition rank (remainders : list Z) (i : nat) : nat :=
  List.length (filter (fun j => precedes remainders j i)
                 (seq 0 (List.length remainders))).

(** one unit more for the [leftover] first-served indices, in input order *)
Definition distribute (shares remainders : list Z) (leftover : Z) : list Z :=
  map (fun i =>
         nth i shares 0
         + (if Z.of_nat (rank remainders i) <? leftover then 1 else 0))
      (seq 0 (List.length shares)).

End LargestRemainder.

(** ** Closed forms of the loops of [allocate] *)

Module AllocationModel.

Import Allocation.

(** the entries pushed by the share loop, from index [i] on *)
Fixpoint entries (amount total : Z) (i : nat) (normalizedRatios : list Z)
  : list Entry :=
  match normalizedRatios with
  | [] => []
  | ratio :: rest =>
      mkEntry (Z.quot (amount * ratio) total) (Z.rem (amount * ratio) total) i
      :: entries amount total (S i) rest
  end.

Definition total_of (xs : list Z) : Z := fold_right Z.add 0 xs.

(** one unit more on the first [count] entries *)
Definition add_units (count : nat) (results : list Entry) : list Entry :=
  map add_unit (firstn count results) ++ skipn count results.

(** the order in which entries are served *)
Definition before (a b : Entry) : Prop :=
  remainder b < remainder a
  \/ (remainder a = remainder b /\ (index a < index b)%nat).

Definition beforeb (a b : Entry) : bool :=
  (remainder b <? remainder a)
  || ((remainder a =? remainder b) && (index a <? index b)%nat).

Definition served_before (results : list Entry) (e : Entry) : nat :=
  List.length (filter (fun y => beforeb y e) results).

Definition index_lt (a b : Entry) : Prop := (index a < index b)%nat.

Definition index_le (a b : Entry) : Prop := (index a <= index b)%nat.

End AllocationModel.

(** * Properties *)

(** ** Rounding engine *)

(** [quotient % 2n !== 0n] tests oddness, also for a negative quotient *)
Lemma rem2_odd q : negb (Z.rem q 2 =? 0) = Z.odd q.
Proof.
  pose proof (Z.rem_mod_eq_0 q 2 ltac:(lia)) as H.
  rewrite Zmod_odd in H.
  destruct (Z.eqb_spec (Z.rem q 2) 0) as [E | E], (Z.odd q); cbn; try reflexivity.
  - apply H in E. discriminate.
  - exfalso. apply E, H. reflexivity.
Qed.

Section RoundingFacts.

Variables n d : Z.
Hypothesis d_nonzero : d <> 0.

Lemma divideWithRounding_unfold mode :
  divideWithRounding n d mode =
  if Z.rem n d =? 0 then Ok (Z.quot n d)
  else Ok (PolicyTable.lookup n d mode).
Proof.
  unfold divideWithRounding, bigint_div, bigint_rem, throw_if.
  destruct (Z.eqb_spec d 0) as [E | _]; [contradiction |].
  cbn [bind].
  destruct (Z.eqb_spec (Z.rem n d) 0) as [R | R]; [reflexivity |].
  unfold PolicyTable.lookup, PolicyTable.classify, PolicyTable.positive_result,
    PolicyTable.away.
  set (q := Z.quot n d). set (r := Z.rem n d) in *.
  replace (if r <? 0 then - r else r) with (Z.abs r)
    by (destruct (Z.ltb_spec r 0); lia).
  replace (if d <? 0 then - d else d) with (Z.abs d)
    by (destruct (Z.ltb_spec d 0); lia).
  replace (negb (xorb (n <? 0) (d <? 0))) with (Bool.eqb (n <? 0) (d <? 0))
    by (destruct (n <? 0), (d <? 0); reflexivity).
  rewrite rem2_odd.
  rewrite Z.gtb_ltb, Z.eqb_compare, Z.ltb_compare.
  rewrite (Z.compare_antisym (Z.abs r * 2) (Z.abs d)).
  replace (2 * Z.abs r) with (Z.abs r * 2) by lia.
  destruct mode, (Z.abs r * 2 ?= Z.abs d), (Bool.eqb (n <? 0) (d <? 0));
    cbn; try reflexivity; destruct (Z.odd q); reflexivity.
Qed.

(** what truncating division guarantees *)
Lemma trunc_division :
  n = d * Z.quot n d + Z.rem n d
  /\ Z.abs (Z.rem n d) < Z.abs d
  /\ (0 <= n -> 0 <= Z.rem n d)
  /\ (n <= 0 -> Z.rem n d <= 0).
Proof.
  repeat split.
  - apply Z.quot_rem'.
  - apply Z.rem_bound_abs; assumption.
  - apply Z.rem_nonneg; assumption.
  - apply Z.rem_nonpos; assumption.
Qed.

(** an inexact truncated quotient is the floor when the exact quotient is
    positive and the ceiling when it is negative *)
Lemma floor_of_trunc :
  Z.rem n d <> 0 ->
  n / d = if PolicyTable.positive_result n d then Z.quot n d else Z.quot n d - 1.
Proof.
  intros R. destruct trunc_division as (E & B & P & N).
  unfold PolicyTable.positive_result.
  set (q := Z.quot n d) in *. set (r := Z.rem n d) in *.
  symmetry.
  destruct (Z.ltb_spec n 0), (Z.ltb_spec d 0); cbn [Bool.eqb].
  - apply (Z.div_unique n d q r); [right | exact E]. lia.
  - apply (Z.div_unique n d (q - 1) (r + d)); [left | ]; lia.
  - apply (Z.div_unique n d (q - 1) (r + d)); [right | ]; lia.
  - apply (Z.div_unique n d q r); [left | exact E]. lia.
Qed.

Lemma entry_cases mode positive f q :
  PolicyTable.entry mode positive f q = q
  \/ PolicyTable.entry mode positive f q = PolicyTable.away positive q.
Proof.
  unfold PolicyTable.away.
  destruct mode, f, positive; cbn; auto; destruct (Z.odd q); auto.
Qed.

Lemma away_distance :
  Z.rem n d <> 0 ->
  Z.abs (n - PolicyTable.away (PolicyTable.positive_result n d) (Z.quot n d) * d)
  < Z.abs d.
Proof.
  intros R. destruct trunc_division as (E & B & P & N).
  unfold PolicyTable.positive_result, PolicyTable.away.
  set (q := Z.quot n d) in *. set (r := Z.rem n d) in *.
  destruct (Z.ltb_spec n 0), (Z.ltb_spec d 0); cbn [Bool.eqb].
  - replace (n - (q + 1) * d) with (r - d) by lia. lia.
  - replace (n - (q - 1) * d) with (r + d) by lia. lia.
  - replace (n - (q - 1) * d) with (r + d) by lia. lia.
  - replace (n - (q + 1) * d) with (r - d) by lia. lia.
Qed.

End RoundingFacts.

(** C2: on an inexact division the rounding engine returns the entry of
    the six-policy table: FLOOR is the floor of the exact quotient, CEIL its
    ceiling, TRUNCATE the truncated quotient, and the HALF policies step
    away from zero as the table says, where stepping away adds one to the
    magnitude of the truncated quotient; the boundary examples of the
    specification hold. *)
Theorem C2_policy_table (n d : Z) (mode : RoundingMode) :
  d <> 0 -> Z.rem n d <> 0 ->
  divideWithRounding n d mode = Ok (PolicyTable.lookup n d mode)
  /\ divideWithRounding n d FLOOR = Ok (n / d)
  /\ divideWithRounding n d CEIL = Ok (n / d + 1)
  /\ divideWithRounding n d TRUNCATE = Ok (Z.quot n d)
  /\ Z.abs (PolicyTable.away (PolicyTable.positive_result n d) (Z.quot n d))
     = Z.abs (Z.quot n d) + 1
  /\ divideWithRounding 5 2 HALF_UP = Ok 3
  /\ divideWithRounding 5 2 HALF_DOWN = Ok 2
  /\ divideWithRounding 5 2 HALF_EVEN = Ok 2
  /\ divideWithRounding 7 2 HALF_EVEN = Ok 4
  /\ divideWithRounding (-35) 10 HALF_EVEN = Ok (-4).
Proof.
  intros D R.
  assert (U : forall m, divideWithRounding n d m = Ok (PolicyTable.lookup n d m)).
  { intros m. rewrite divideWithRounding_unfold by assumption.
    destruct (Z.eqb_spec (Z.rem n d) 0); [contradiction | reflexivity]. }
  pose proof (floor_of_trunc n d D R) as F.
  repeat split; try reflexivity.
  - apply U.
  - rewrite U, F. unfold PolicyTable.lookup. cbn [PolicyTable.entry].
    destruct (PolicyTable.positive_result n d); reflexivity.
  - rewrite U, F. unfold PolicyTable.lookup. cbn [PolicyTable.entry].
    destruct (PolicyTable.positive_result n d); f_equal; lia.
  - apply U.
  - destruct (trunc_division n d D) as (E & B & P & N).
    unfold PolicyTable.positive_result, PolicyTable.away.
    set (q := Z.quot n d) in *. set (r := Z.rem n d) in *.
    destruct (Z.ltb_spec n 0), (Z.ltb_spec d 0); cbn [Bool.eqb]; nia.
Qed.

Lemma C2_policy_table_witness :
  divideWithRounding 5 2 HALF_EVEN = Ok (PolicyTable.lookup 5 2 HALF_EVEN).
Proof.
  apply (C2_policy_table 5 2 HALF_EVEN); [lia | vm_compute; discriminate].
Defined.

(** C3: when the denominator divides the numerator, every policy returns
    the exact quotient. *)
Theorem C3_exact_division (n d : Z) (mode : RoundingMode) :
  d <> 0 -> Z.rem n d = 0 ->
  divideWithRounding n d mode = Ok (Z.quot n d) /\ Z.quot n d * d = n.
Proof.
  intros D R. split.
  - rewrite divideWithRounding_unfold by assumption.
    rewrite R. reflexivity.
  - pose proof (Z.quot_rem' n d). lia.
Qed.

Lemma C3_exact_division_witness :
  divideWithRounding (-12) 4 HALF_UP = Ok (Z.quot (-12) 4)
  /\ Z.quot (-12) 4 * 4 = -12.
Proof.
  apply (C3_exact_division (-12) 4 HALF_UP); [lia | reflexivity].
Defined.

(** C6: a zero denominator raises the explicit [Error("Division by zero")]
    under every policy; the runtime's own [RangeError] is never reached and
    no value is returned. *)
Theorem C6_zero_denominator (n : Z) (mode : RoundingMode) :
  divideWithRounding n 0 mode = Throw (Error "Division by zero").
Proof. reflexivity. Qed.

(** C10: for a non-zero denominator every policy returns a value [r] with
    [|n - r * d| < |d|], which is the floor or the ceiling of the exact
    quotient. *)
Theorem C10_within_one_unit (n d : Z) (mode : RoundingMode) :
  d <> 0 ->
  exists r,
    divideWithRounding n d mode = Ok r
    /\ Z.abs (n - r * d) < Z.abs d
    /\ (r = n / d \/ r = - ((- n) / d)).
Proof.
  intros D. rewrite divideWithRounding_unfold by assumption.
  destruct (trunc_division n d D) as (E & B & _).
  destruct (Z.eqb_spec (Z.rem n d) 0) as [R | R].
  - exists (Z.quot n d). split; [reflexivity |]. split.
    + replace (n - Z.quot n d * d) with 0 by lia. lia.
    + left. apply Z.div_unique_exact; [assumption | lia].
  - exists (PolicyTable.lookup n d mode). split; [reflexivity |].
    pose proof (floor_of_trunc n d D R) as F.
    assert (C : - (- n / d) = n / d + 1).
    { pose proof (Z.div_mod n d D) as M.
      assert (n mod d <> 0).
      { intros Z0. apply R. apply Z.rem_mod_eq_0; assumption. }
      assert (HB : 0 <= n mod d < d \/ d < n mod d <= 0).
      { destruct (Z.lt_total d 0) as [L | [L | L]]; [right | lia | left].
        - pose proof (Z.mod_neg_bound n d L). lia.
        - pose proof (Z.mod_pos_bound n d L). lia. }
      enough (- (n / d + 1) = - n / d) by lia.
      apply (Z.div_unique (- n) d (- (n / d + 1)) (d - n mod d)); lia. }
    unfold PolicyTable.lookup.
    destruct (entry_cases mode (PolicyTable.positive_result n d)
                (PolicyTable.classify (Z.rem n d) d) (Z.quot n d)) as [-> | ->].
    + split; [replace (n - Z.quot n d * d) with (Z.rem n d) by lia; exact B |].
      rewrite C, F. destruct (PolicyTable.positive_result n d); [left | right]; lia.
    + split; [apply away_distance; assumption |].
      rewrite C, F. unfold PolicyTable.away.
      destruct (PolicyTable.positive_result n d); [right | left]; lia.
Qed.

Lemma C10_within_one_unit_witness :
  exists r,
    divideWithRounding (-35) 10 HALF_EVEN = Ok r
    /\ Z.abs (-35 - r * 10) < Z.abs 10
    /\ (r = -35 / 10 \/ r = - ((- -35) / 10)).
Proof.
  apply (C10_within_one_unit (-35) 10 HALF_EVEN). lia.
Defined.

(** ** Arithmetic operators *)

Lemma bigint_rem_nonzero a b : b <> 0 -> bigint_rem a b = Ok (Z.rem a b).
Proof.
  intros B. unfold bigint_rem. destruct (Z.eqb_spec b 0); [contradiction | reflexivity].
Qed.

Lemma bigint_div_nonzero a b : b <> 0 -> bigint_div a b = Ok (Z.quot a b).
Proof.
  intros B. unfold bigint_div. destruct (Z.eqb_spec b 0); [contradiction | reflexivity].
Qed.

(** a parsed multiplier has a power of ten as denominator, one factor of
    ten per fractional digit *)
Lemma parseMultiplier_denominator multiplier r :
  Arithmetic.parseMultiplier multiplier = Ok r ->
  Arithmetic.denominator r
  = 10 ^ Z.of_nat (String.length
                     (JsString.part_or_empty (JsString.split "." (toString multiplier)) 1))
  /\ 0 < Arithmetic.denominator r.
Proof.
  unfold Arithmetic.parseMultiplier, throw_if.
  destruct (JsString.test _ _); [discriminate |]. cbn [bind].
  destruct (_ <? _)%nat; [discriminate |]. cbn [bind].
  destruct (JsString.BigInt _); [| discriminate]. cbn [bind].
  intros [= <-]. cbn [Arithmetic.denominator]. split; [reflexivity |].
  apply Z.pow_pos_nonneg; lia.
Qed.

(** C4: for a multiplier that parses to the ratio [r], [multiply] returns
    the exact quotient, with or without a policy, when the denominator
    divides the product; otherwise it raises [RoundingRequiredError] when no
    policy is given and returns the rounding engine's result when one is;
    100 minor units times 0.555 needs rounding, gives 56 under HALF_UP and
    55 under FLOOR. *)
Theorem C4_multiply (amount : Z) (multiplier : scalar) (r : Arithmetic.Ratio) :
  Arithmetic.parseMultiplier multiplier = Ok r ->
  let product := amount * Arithmetic.numerator r in
  (Z.rem product (Arithmetic.denominator r) = 0 ->
   forall rounding,
     Arithmetic.multiply amount multiplier rounding
     = Ok (Z.quot product (Arithmetic.denominator r)))
  /\ (Z.rem product (Arithmetic.denominator r) <> 0 ->
      Arithmetic.multiply amount multiplier None
      = Throw (RoundingRequiredError "multiply")
      /\ forall mode,
          Arithmetic.multiply amount multiplier (Some mode)
          = divideWithRounding product (Arithmetic.denominator r) mode)
  /\ Arithmetic.multiply 100 (Str "0.555") None
     = Throw (RoundingRequiredError "multiply")
  /\ Arithmetic.multiply 100 (Str "0.555") (Some HALF_UP) = Ok 56
  /\ Arithmetic.multiply 100 (Str "0.555") (Some FLOOR) = Ok 55.
Proof.
  intros P product.
  destruct (parseMultiplier_denominator _ _ P) as [_ D].
  assert (U : forall rounding,
             Arithmetic.multiply amount multiplier rounding
             = if Z.rem product (Arithmetic.denominator r) =? 0
               then Ok (Z.quot product (Arithmetic.denominator r))
               else match rounding with
                    | None => Throw (RoundingRequiredError "multiply")
                    | Some mode =>
                        divideWithRounding product (Arithmetic.denominator r) mode
                    end).
  { intros rounding. unfold Arithmetic.multiply. rewrite P. cbn [bind].
    fold product.
    rewrite bigint_rem_nonzero, bigint_div_nonzero by lia. reflexivity. }
  split; [| split; [| repeat split]].
  - intros E rounding. rewrite U, E. reflexivity.
  - intros N. split; [| intros mode]; rewrite U;
      destruct (Z.eqb_spec (Z.rem product (Arithmetic.denominator r)) 0);
      contradiction || reflexivity.
Qed.

Lemma C4_multiply_witness :
  Arithmetic.multiply 100 (Str "0.555") (Some HALF_EVEN)
  = divideWithRounding 55500 1000 HALF_EVEN.
Proof.
  assert (P : Arithmetic.parseMultiplier (Str "0.555")
              = Ok (Arithmetic.mkRatio 555 1000)) by reflexivity.
  destruct (C4_multiply 100 (Str "0.555") _ P) as (_ & I & _).
  apply I. vm_compute. discriminate.
Defined.

(** a divisor whose numerator parses to zero makes the bigint remainder
    operator of [divide] raise the runtime's [RangeError] *)
Lemma divide_zero_numerator amount divisor r rounding :
  Arithmetic.parseMultiplier divisor = Ok r ->
  Arithmetic.numerator r = 0 ->
  Arithmetic.divide amount divisor rounding = Throw RangeError.
Proof.
  intros P Z0. unfold Arithmetic.divide. rewrite P. cbn [bind].
  rewrite Z0. reflexivity.
Qed.

(** the guard of [Money.divide] catches the number [0] and the string
    ["0"] only *)
Lemma Money_divide_guard this divisor rounding :
  is_number_zero divisor || is_string_zero divisor = true ->
  Money.divide this divisor rounding = Throw (Error "Division by zero").
Proof.
  intros G. unfold Money.divide. rewrite G. reflexivity.
Qed.

(** C5: the divisors [0] and ["0"] raise the explicit
    [Error("Division by zero")] of [Money.divide], but ["0.0"] and ["0.00"],
    whose numerator is zero as well, pass its guard and end in the
    [RangeError] of the bigint remainder operator in [arithmetic.divide],
    which has no guard of its own, under every policy. *)
Theorem C5_zero_divisor_literals (this : Money.Money) (rounding : option RoundingMode) :
  Money.divide this (Num "0") rounding = Throw (Error "Division by zero")
  /\ Money.divide this (Str "0") rounding = Throw (Error "Division by zero")
  /\ Money.divide this (Str "0.0") rounding = Throw RangeError
  /\ Money.divide this (Str "0.00") rounding = Throw RangeError
  /\ Arithmetic.divide (Money.minor this) (Str "0") rounding = Throw RangeError.
Proof. repeat split; reflexivity. Qed.

(** ** Decimal parser *)

Lemma test_existsb class s :
  JsString.test class s = existsb class (Literal.chars s).
Proof.
  induction s as [| c rest IH]; [reflexivity |].
  cbn. rewrite IH. reflexivity.
Qed.

Lemma existsb_pointwise {A : Type} (f g : A -> bool) l :
  (forall x, f x = g x) -> existsb f l = existsb g l.
Proof.
  intros E. induction l as [| x l IH]; [reflexivity |].
  cbn. rewrite E, IH. reflexivity.
Qed.

Lemma is_exponent_mark_class c :
  JsString.is_exponent_mark c = Literal.one_of "eE" c.
Proof. destruct c as [[] [] [] [] [] [] [] []]; reflexivity. Qed.

Lemma is_outside_decimal_class_class c :
  JsString.is_outside_decimal_class c = negb (Literal.one_of "0123456789.-" c).
Proof. destruct c as [[] [] [] [] [] [] [] []]; reflexivity. Qed.

Lemma is_digit_class c : JsString.is_digit c = Literal.one_of "0123456789" c.
Proof. destruct c as [[] [] [] [] [] [] [] []]; reflexivity. Qed.

Lemma test_exponent s :
  JsString.test JsString.is_exponent_mark s = Literal.has_exponent s.
Proof.
  rewrite test_existsb. apply existsb_pointwise, is_exponent_mark_class.
Qed.

Lemma test_foreign s :
  JsString.test JsString.is_outside_decimal_class s = Literal.has_foreign_character s.
Proof.
  rewrite test_existsb. apply existsb_pointwise, is_outside_decimal_class_class.
Qed.

Lemma test_no_digit s :
  negb (JsString.test JsString.is_digit s) = Literal.has_no_digit s.
Proof.
  rewrite test_existsb. unfold Literal.has_no_digit.
  induction (Literal.chars s) as [| c l IH]; [reflexivity |].
  cbn. rewrite negb_orb, IH, is_digit_class. reflexivity.
Qed.

Lemma split_nonempty sep s : JsString.split sep s <> [].
Proof.
  destruct s as [| c rest]; cbn; [discriminate |].
  destruct (Ascii.eqb c sep); [discriminate |].
  destruct (JsString.split sep rest); discriminate.
Qed.

(** [split] yields one part more than there are separators *)
Lemma split_length s :
  List.length (JsString.split "." s) = S (Literal.decimal_points s).
Proof.
  unfold Literal.decimal_points.
  induction s as [| c rest IH]; [reflexivity |].
  cbn [JsString.split Literal.chars list_ascii_of_string filter].
  rewrite (Ascii.eqb_sym "." c).
  destruct (Ascii.eqb c "."); cbn [List.length].
  - f_equal. exact IH.
  - pose proof (split_nonempty "." rest) as N.
    destruct (JsString.split "." rest) as [| part parts]; [contradiction |].
    exact IH.
Qed.

Lemma split_without_point s :
  Literal.decimal_points s = O -> JsString.split "." s = [s].
Proof.
  unfold Literal.decimal_points.
  induction s as [| c rest IH]; [reflexivity |].
  cbn [JsString.split Literal.chars list_ascii_of_string filter].
  rewrite (Ascii.eqb_sym "." c).
  destruct (Ascii.eqb c "."); cbn [List.length]; [discriminate |].
  intros Z0. rewrite (IH Z0). reflexivity.
Qed.

(** with at most one decimal point, [parts[1] || ""] is what follows it *)
Lemma split_fractional_part s :
  (Literal.decimal_points s <= 1)%nat ->
  JsString.part_or_empty (JsString.split "." s) 1 = Literal.fractional_part s.
Proof.
  unfold JsString.part_or_empty, Literal.decimal_points.
  induction s as [| c rest IH]; [reflexivity |].
  cbn [JsString.split Literal.chars list_ascii_of_string filter
       Literal.fractional_part].
  rewrite (Ascii.eqb_sym "." c).
  destruct (Ascii.eqb c "."); cbn [List.length]; intros L.
  - rewrite split_without_point; [reflexivity |].
    unfold Literal.decimal_points, Literal.chars. lia.
  - pose proof (split_nonempty "." rest) as N.
    destruct (JsString.split "." rest) as [| part parts]; [contradiction |].
    apply IH, L.
Qed.

(** [BigInt(string)] returns a value or raises a [SyntaxError] *)
Lemma BigInt_outcomes s :
  (exists v, JsString.BigInt s = Ok v) \/ JsString.BigInt s = Throw SyntaxError.
Proof.
  unfold JsString.BigInt. destruct (JsString.StringToBigInt s); eauto.
Qed.

(** the behaviour of [parseToMinor] by cases of the literal *)
Lemma parseToMinor_cases amount currency :
  if Literal.malformed amount
  then exists message, Parser.parseToMinor amount currency = Throw (Error message)
  else if (decimals currency <? String.length (Literal.fractional_part amount))%nat
  then Parser.parseToMinor amount currency
       = Throw (InvalidPrecisionError
                  (String.length (Literal.fractional_part amount))
                  (decimals currency))
  else (exists v, Parser.parseToMinor amount currency = Ok v)
       \/ Parser.parseToMinor amount currency = Throw SyntaxError.
Proof.
  unfold Parser.parseToMinor, Literal.malformed, throw_if.
  rewrite test_exponent, test_foreign, test_no_digit.
  destruct (Literal.has_exponent amount); [cbn; eauto |].
  destruct (Literal.has_foreign_character amount); [cbn; eauto |].
  destruct (Literal.has_no_digit amount) eqn:ND.
  { rewrite !orb_true_r. cbn. eauto. }
  cbn [bind orb]. rewrite orb_false_r.
  replace (2 <? List.length (JsString.split "." amount))%nat
    with (1 <? Literal.decimal_points amount)%nat
    by (rewrite split_length; reflexivity).
  destruct (Nat.ltb_spec 1 (Literal.decimal_points amount)) as [M | M];
    [cbn; eauto |].
  cbn [bind]. rewrite split_fractional_part by exact M.
  destruct (_ <? _)%nat; [reflexivity |].
  cbn [bind]. apply BigInt_outcomes.
Qed.

(** C8: a literal with an exponent mark, a character outside digits, point
    and minus, more than one decimal point or no digit raises a plain
    [Error]; [InvalidPrecisionError] is raised exactly for the literals that
    pass these four tests and whose fractional part is longer than the
    currency's decimals, and carries both counts; ["100.001"] at two
    decimals raises it. *)
Theorem C8_parse_errors (amount : string) (currency : Currency) :
  (Literal.malformed amount = true ->
   exists message, Parser.parseToMinor amount currency = Throw (Error message))
  /\ ((exists precision limit,
         Parser.parseToMinor amount currency
         = Throw (InvalidPrecisionError precision limit))
      <-> Literal.malformed amount = false
          /\ (decimals currency < String.length (Literal.fractional_part amount))%nat)
  /\ (forall precision limit,
        Parser.parseToMinor amount currency
        = Throw (InvalidPrecisionError precision limit) ->
        precision = String.length (Literal.fractional_part amount)
        /\ limit = decimals currency)
  /\ Parser.parseToMinor "100.001" (mkCurrency "USD" 2 "$" (Some "en-US"%string))
     = Throw (InvalidPrecisionError 3 2).
Proof.
  pose proof (parseToMinor_cases amount currency) as C.
  destruct (Literal.malformed amount).
  - destruct C as [message C]. rewrite C.
    split; [intros _; eauto |]. split; [| split; [| reflexivity]].
    + split; [intros (p & l & [=]) | intros [[=] _]].
    + intros p l [=].
  - destruct (Nat.ltb_spec (decimals currency)
                (String.length (Literal.fractional_part amount))) as [L | L].
    + rewrite C. split; [intros [=] |]. split; [| split; [| reflexivity]].
      * split; [auto | eauto].
      * intros p l [= <- <-]. auto.
    + split; [intros [=] |]. split; [| split; [| reflexivity]].
      * split; [| intros [_ G]; lia].
        intros (p & l & E). rewrite E in C. destruct C as [[v [=]] | [=]].
      * intros p l E. rewrite E in C. destruct C as [[v [=]] | [=]].
Qed.

Lemma C8_parse_errors_witness :
  exists message,
    Parser.parseToMinor "1e5" (mkCurrency "USD" 2 "$" None) = Throw (Error message).
Proof.
  apply (C8_parse_errors "1e5" (mkCurrency "USD" 2 "$" None)). reflexivity.
Defined.

(** ** Value object *)

Section MoneyFacts.

Variables this other : Money.Money.

Lemma assertSameCurrency_same :
  code (Money.currency this) = code (Money.currency other) ->
  Money.assertSameCurrency this other = Ok tt.
Proof.
  intros E. unfold Money.assertSameCurrency, throw_if.
  rewrite E, String.eqb_refl. reflexivity.
Qed.

Lemma assertSameCurrency_differ :
  code (Money.currency this) <> code (Money.currency other) ->
  Money.assertSameCurrency this other
  = Throw (CurrencyMismatchError (code (Money.currency this))
             (code (Money.currency other))).
Proof.
  intros N. unfold Money.assertSameCurrency, throw_if.
  destruct (String.eqb_spec (code (Money.currency this))
              (code (Money.currency other))); [contradiction | reflexivity].
Qed.

End MoneyFacts.

(** C9, as the code has it: between two [Money] values of different
    currency codes, [compare], [greaterThan] and [lessThan] raise
    [CurrencyMismatchError] while [equals] raises nothing and returns
    [false]; between values of the same code [equals] returns [true]
    exactly when the minor-unit values are equal, and the ordering methods
    compare the minor-unit values. *)
Theorem C9_comparisons (this other : Money.Money) :
  let mismatch :=
    CurrencyMismatchError (code (Money.currency this)) (code (Money.currency other)) in
  (code (Money.currency this) <> code (Money.currency other) ->
   Money.compare this (Money.OfMoney other) = Throw mismatch
   /\ Money.greaterThan this (Money.OfMoney other) = Throw mismatch
   /\ Money.lessThan this (Money.OfMoney other) = Throw mismatch
   /\ Money.equals this (Money.OfMoney other) = Ok false)
  /\ (code (Money.currency this) = code (Money.currency other) ->
      (Money.equals this (Money.OfMoney other) = Ok true
       <-> Money.minor this = Money.minor other)
      /\ Money.equals this (Money.OfMoney other)
         = Ok (Money.minor this =? Money.minor other)
      /\ Money.compare this (Money.OfMoney other)
         = Ok (match Money.minor this ?= Money.minor other with
               | Lt => -1
               | Eq => 0
               | Gt => 1
               end)
      /\ Money.greaterThan this (Money.OfMoney other)
         = Ok (Money.minor this >? Money.minor other)
      /\ Money.lessThan this (Money.OfMoney other)
         = Ok (Money.minor this <? Money.minor other)).
Proof.
  intros mismatch. split.
  - intros N.
    unfold Money.compare, Money.greaterThan, Money.lessThan, Money.equals.
    cbn [Money.resolveOther bind].
    rewrite (assertSameCurrency_differ this other N).
    repeat split.
    destruct (String.eqb_spec (code (Money.currency this))
                (code (Money.currency other))); [contradiction | reflexivity].
  - intros E.
    unfold Money.compare, Money.greaterThan, Money.lessThan, Money.equals.
    cbn [Money.resolveOther bind].
    rewrite (assertSameCurrency_same this other E), E, String.eqb_refl.
    cbn [bind andb].
    split; [| split; [reflexivity | split; [| split; reflexivity]]].
    + split.
      * intros [= Q]. apply Z.eqb_eq. exact Q.
      * intros Q. rewrite Q, Z.eqb_refl. reflexivity.
    + rewrite Z.gtb_ltb, !Z.ltb_compare, (Z.compare_antisym (Money.minor this)).
      destruct (Money.minor this ?= Money.minor other); reflexivity.
Qed.

Lemma C9_comparisons_witness :
  Money.compare (Money.mkMoney 100 (mkCurrency "USD" 2 "$" None))
    (Money.OfMoney (Money.mkMoney 100 (mkCurrency "EUR" 2 "E" None)))
  = Throw (CurrencyMismatchError "USD" "EUR")
  /\ (Money.equals (Money.mkMoney 100 (mkCurrency "USD" 2 "$" None))
        (Money.OfMoney (Money.mkMoney 100 (mkCurrency "USD" 2 "$" None)))
      = Ok true
      <-> 100 = 100).
Proof.
  split.
  - apply (C9_comparisons (Money.mkMoney 100 (mkCurrency "USD" 2 "$" None))
             (Money.mkMoney 100 (mkCurrency "EUR" 2 "E" None))).
    cbn. discriminate.
  - apply (C9_comparisons (Money.mkMoney 100 (mkCurrency "USD" 2 "$" None))
             (Money.mkMoney 100 (mkCurrency "USD" 2 "$" None))).
    reflexivity.
Defined.

(** C9 as worded fails for [equals]: for 100 minor units in USD against
    100 minor units in EUR it returns [false] and raises nothing. *)
Lemma C9_equals_currency_mismatch :
  let usd := Money.mkMoney 100 (mkCurrency "USD" 2 "$" None) in
  let eur := Money.mkMoney 100 (mkCurrency "EUR" 2 "E" None) in
  code (Money.currency usd) <> code (Money.currency eur)
  /\ Money.equals usd (Money.OfMoney eur) = Ok false
  /\ ~ (exists expected received,
          Money.equals usd (Money.OfMoney eur)
          = Throw (CurrencyMismatchError expected received)).
Proof.
  cbn. split; [discriminate |]. split; [reflexivity |].
  intros (expected & received & [=]).
Qed.

(** ** Allocation engine *)

Section SortFacts.

Context {A : Type}.
Variable cmp : A -> A -> Z.

Lemma insert_by_perm x l : Permutation (Allocation.insert_by cmp x l) (x :: l).
Proof.
  induction l as [| y l IH]; cbn; [reflexivity |].
  destruct (cmp x y <=? 0); [reflexivity |].
  rewrite IH. apply perm_swap.
Qed.

Lemma sort_by_perm l : Permutation (Allocation.sort_by cmp l) l.
Proof.
  induction l as [| x l IH]; cbn; [reflexivity |].
  rewrite insert_by_perm. apply perm_skip, IH.
Qed.

(** Inserting an element that goes in front of every element it does not
    compare greater than, and behind every element it compares greater
    than, keeps a list sorted by a transitive order. *)
Lemma insert_by_sorted (R : A -> A -> Prop) x l :
  (forall a b c, R a b -> R b c -> R a c) ->
  (forall y, In y l -> cmp x y <= 0 -> R x y) ->
  (forall y, In y l -> 0 < cmp x y -> R y x) ->
  StronglySorted R l ->
  StronglySorted R (Allocation.insert_by cmp x l).
Proof.
  intros Tr Le Gt S. revert Le Gt.
  induction S as [| y l S IH F]; cbn; intros Le Gt.
  - repeat constructor.
  - destruct (Z.leb_spec (cmp x y) 0) as [C | C].
    + constructor; [constructor; assumption |].
      assert (Rxy : R x y) by (apply Le; [left; reflexivity | exact C]).
      constructor; [exact Rxy |].
      eapply Forall_impl; [| exact F]. intros z Ryz. exact (Tr _ _ _ Rxy Ryz).
    + constructor.
      * apply IH; intros z I; [apply Le | apply Gt]; right; exact I.
      * eapply Permutation_Forall; [symmetry; apply insert_by_perm |].
        constructor; [apply Gt; [left; reflexivity | exact C] | exact F].
Qed.

End SortFacts.

Section OrderFacts.

Import Allocation AllocationModel.

Lemma before_trans a b c : before a b -> before b c -> before a c.
Proof. unfold before. lia. Qed.

Lemma before_irrefl a : ~ before a a.
Proof. unfold before. lia. Qed.

Lemma before_asym a b : before a b -> ~ before b a.
Proof. unfold before. lia. Qed.

Lemma beforeb_true a b : beforeb a b = true <-> before a b.
Proof.
  unfold before, beforeb.
  rewrite orb_true_iff, andb_true_iff, Z.ltb_lt, Z.eqb_eq, Nat.ltb_lt.
  reflexivity.
Qed.

Lemma by_remainder_desc_le a b :
  by_remainder_desc a b <= 0 <-> remainder b <= remainder a.
Proof.
  unfold by_remainder_desc. rewrite Z.gtb_ltb.
  destruct (Z.ltb_spec (remainder a) (remainder b)),
    (Z.ltb_spec (remainder b) (remainder a)); lia.
Qed.

(** the stable sort by remainder, applied to entries in index order,
    sorts by remainder descending and then index ascending *)
Lemma sort_by_remainder_sorted l :
  StronglySorted index_lt l ->
  StronglySorted before (sort_by by_remainder_desc l).
Proof.
  induction 1 as [| x l S IH F]; cbn; [constructor |].
  apply insert_by_sorted; [exact before_trans | | | exact IH].
  - intros y I C. apply by_remainder_desc_le in C.
    assert (L : index_lt x y).
    { rewrite Forall_forall in F. apply F.
      eapply Permutation_in; [apply sort_by_perm | exact I]. }
    unfold before, index_lt in *. lia.
  - intros y _ C. left.
    destruct (Z.le_gt_cases (remainder y) (remainder x)) as [L | L]; [| exact L].
    apply by_remainder_desc_le in L. lia.
Qed.

Lemma sort_by_index_sorted l : StronglySorted index_le (sort_by by_index l).
Proof.
  induction l as [| x l IH]; cbn; [constructor |].
  apply insert_by_sorted; [| | | exact IH]; unfold index_le, by_index; lia.
Qed.

Lemma index_le_lt l :
  NoDup (map index l) -> StronglySorted index_le l -> StronglySorted index_lt l.
Proof.
  intros N S. induction S as [| x l S IH F]; [constructor |].
  cbn in N. inversion N as [| ? ? NI N']; subst.
  constructor; [apply IH, N' |].
  rewrite Forall_forall in *. intros y I.
  specialize (F y I). unfold index_le, index_lt in *.
  assert (index x <> index y).
  { intros E. apply NI. rewrite E. apply in_map, I. }
  lia.
Qed.

(** two lists in strictly increasing index order with the same elements
    are equal *)
Lemma index_sorted_unique l1 :
  forall l2,
    StronglySorted index_lt l1 -> StronglySorted index_lt l2 ->
    Permutation l1 l2 -> l1 = l2.
Proof.
  induction l1 as [| x l1 IH]; intros l2 S1 S2 P.
  - apply Permutation_nil in P. subst. reflexivity.
  - destruct l2 as [| y l2];
      [apply Permutation_sym, Permutation_nil in P; discriminate |].
    inversion S1 as [| ? ? S1' F1]; inversion S2 as [| ? ? S2' F2]; subst.
    rewrite Forall_forall in F1, F2.
    assert (E : x = y).
    { assert (Ix : In x (y :: l2))
        by (eapply Permutation_in; [exact P | left; reflexivity]).
      assert (Iy : In y (x :: l1))
        by (eapply Permutation_in; [symmetry; exact P | left; reflexivity]).
      destruct Ix as [-> | Ix]; [reflexivity |].
      destruct Iy as [-> | Iy]; [reflexivity |].
      specialize (F1 y Iy). specialize (F2 x Ix). unfold index_lt in *. lia. }
    subst y. f_equal. apply IH; [assumption | assumption |].
    eapply Permutation_cons_inv, P.
Qed.

(** sorting back by index restores a list whose indices are distinct and
    which is known in index order up to permutation *)
Lemma sort_by_index_restores l sorted :
  StronglySorted index_lt sorted -> Permutation l sorted ->
  sort_by by_index l = sorted.
Proof.
  intros S P. apply index_sorted_unique; [| exact S |].
  - apply index_le_lt; [| apply sort_by_index_sorted].
    apply (Permutation_NoDup (l := map index sorted)).
    + apply Permutation_map. rewrite sort_by_perm. symmetry. exact P.
    + clear P. induction S as [| x l' S IH F]; cbn; constructor; [| exact IH].
      rewrite Forall_forall in F. intros I. apply in_map_iff in I.
      destruct I as (y & E & I). specialize (F y I). unfold index_lt in F. lia.
  - rewrite sort_by_perm. exact P.
Qed.

End OrderFacts.

Section LoopFacts.

Import Allocation AllocationModel.

Lemma sum_of_total_of xs : sum_of xs = total_of xs.
Proof.
  unfold sum_of, total_of.
  enough (G : forall acc, fold_left (fun sum r => sum + r) xs acc
                          = acc + fold_right Z.add 0 xs) by (rewrite G; lia).
  induction xs as [| x xs IH]; intros acc; cbn; [lia |].
  rewrite IH. lia.
Qed.

Lemma total_of_app xs ys : total_of (xs ++ ys) = total_of xs + total_of ys.
Proof.
  unfold total_of. induction xs as [| x xs IH]; cbn; [reflexivity |].
  rewrite IH. lia.
Qed.

Lemma total_of_perm xs ys : Permutation xs ys -> total_of xs = total_of ys.
Proof.
  unfold total_of. induction 1; cbn; lia.
Qed.

Variables amount total : Z.
Hypothesis total_nonzero : total <> 0.

(** the share loop never fails and pushes [entries] *)
Lemma shares_loop_closed ws :
  forall i results allocatedTotal,
    shares_loop amount total i ws results allocatedTotal
    = Ok (results ++ entries amount total i ws,
          allocatedTotal + total_of (map share (entries amount total i ws))).
Proof.
  induction ws as [| w ws IH]; intros i results acc; cbn.
  - rewrite app_nil_r, Z.add_0_r. reflexivity.
  - rewrite bigint_div_nonzero, bigint_rem_nonzero by assumption. cbn [bind].
    rewrite IH, <- app_assoc. cbn [app map share total_of fold_right].
    unfold total_of. rewrite Z.add_assoc. reflexivity.
Qed.

Lemma entries_length ws i : List.length (entries amount total i ws) = List.length ws.
Proof.
  revert i. induction ws as [| w ws IH]; intros i; cbn; [reflexivity |].
  rewrite IH. reflexivity.
Qed.

Lemma entries_index ws i :
  map index (entries amount total i ws) = seq i (List.length ws).
Proof.
  revert i. induction ws as [| w ws IH]; intros i; cbn; [reflexivity |].
  rewrite IH. reflexivity.
Qed.

Lemma entries_share ws i :
  map share (entries amount total i ws)
  = map (fun w => Z.quot (amount * w) total) ws.
Proof.
  revert i. induction ws as [| w ws IH]; intros i; cbn; [reflexivity |].
  rewrite IH. reflexivity.
Qed.

Lemma entries_remainder ws i :
  map remainder (entries amount total i ws)
  = map (fun w => Z.rem (amount * w) total) ws.
Proof.
  revert i. induction ws as [| w ws IH]; intros i; cbn; [reflexivity |].
  rewrite IH. reflexivity.
Qed.

(** an entry holds the share and the remainder of its own index *)
Lemma entries_in ws e :
  In e (entries amount total 0 ws) ->
  (index e < List.length ws)%nat
  /\ share e = nth (index e) (map (fun w => Z.quot (amount * w) total) ws) 0
  /\ remainder e = nth (index e) (map (fun w => Z.rem (amount * w) total) ws) 0.
Proof.
  enough (G : forall i, In e (entries amount total i ws) ->
            (i <= index e < i + List.length ws)%nat
            /\ share e = nth (index e - i)
                           (map (fun w => Z.quot (amount * w) total) ws) 0
            /\ remainder e = nth (index e - i)
                               (map (fun w => Z.rem (amount * w) total) ws) 0).
  { intros I. destruct (G O I) as (B & Sh & Re).
    rewrite Nat.sub_0_r in Sh, Re. repeat split; [lia | exact Sh | exact Re]. }
  induction ws as [| w ws IH]; intros i; cbn [entries]; [intros [] |].
  intros [<- | I].
  - cbn. rewrite Nat.sub_diag. repeat split; lia.
  - destruct (IH (S i) I) as (B & Sh & Re). cbn [List.length map].
    replace (index e - i)%nat with (S (index e - S i)) by lia.
    repeat split; [lia | lia | exact Sh | exact Re].
Qed.

Lemma entries_sorted ws i : StronglySorted index_lt (entries amount total i ws).
Proof.
  revert i. induction ws as [| w ws IH]; intros i; cbn; constructor; [apply IH |].
  rewrite Forall_forall. intros e I.
  assert (In (index e) (seq (S i) (List.length ws)))
    by (rewrite <- entries_index; apply in_map, I).
  rewrite in_seq in *. unfold index_lt. cbn. lia.
Qed.

(** shares and remainders add up to the scaled amount *)
Lemma entries_division ws i :
  total * total_of (map share (entries amount total i ws))
  + total_of (map remainder (entries amount total i ws))
  = amount * total_of ws.
Proof.
  revert i. induction ws as [| w ws IH]; intros i; cbn; [lia |].
  specialize (IH (S i)). unfold total_of in *.
  pose proof (Z.quot_rem' (amount * w) total). lia.
Qed.

Lemma entries_remainder_bound ws i :
  Z.abs (total_of (map remainder (entries amount total i ws)))
  <= Z.of_nat (List.length ws) * (Z.abs total - 1).
Proof.
  revert i. induction ws as [| w ws IH]; intros i; cbn [entries map List.length];
    [cbn; lia |].
  specialize (IH (S i)). unfold total_of in *. cbn [fold_right remainder].
  pose proof (Z.rem_bound_abs (amount * w) total total_nonzero). lia.
Qed.

(** the leftover is smaller in magnitude than the number of ratios *)
Lemma leftover_bound ws :
  total_of ws = total -> ws <> [] ->
  Z.abs (amount - total_of (map share (entries amount total 0 ws)))
  < Z.of_nat (List.length ws).
Proof.
  intros T N.
  pose proof (entries_division ws 0) as D.
  pose proof (entries_remainder_bound ws 0) as B.
  rewrite T in D.
  set (q := total_of (map share (entries amount total 0 ws))) in *.
  set (r := total_of (map remainder (entries amount total 0 ws))) in *.
  assert (L : (0 < List.length ws)%nat) by (destruct ws; [contradiction | cbn; lia]).
  assert (E : r = total * (amount - q)) by lia.
  rewrite E, Z.abs_mul in B.
  nia.
Qed.

End LoopFacts.

Section DistributeFacts.

Import Allocation AllocationModel.

Lemma set_nth_middle {A : Type} (pre : list A) x e rest :
  set_nth (List.length pre) x (pre ++ e :: rest) = pre ++ x :: rest.
Proof.
  induction pre as [| y pre IH]; cbn; [reflexivity |].
  rewrite IH. reflexivity.
Qed.

(** within the array the unit loop never fails and adds one unit to each
    of the first [count] entries *)
Lemma distribute_loop_closed count :
  forall pre l,
    (count <= List.length l)%nat ->
    distribute_loop count (List.length pre) (pre ++ l)
    = Ok (pre ++ add_units count l).
Proof.
  induction count as [| k IH]; intros pre l L; [reflexivity |].
  destruct l as [| e l]; [cbn in L; lia |].
  cbn [distribute_loop].
  rewrite nth_error_app2, Nat.sub_diag by lia. cbn [nth_error].
  rewrite set_nth_middle.
  replace (S (List.length pre)) with (List.length (pre ++ [add_unit e]))
    by (rewrite length_app; cbn; lia).
  replace (pre ++ add_unit e :: l) with ((pre ++ [add_unit e]) ++ l)
    by (rewrite <- app_assoc; reflexivity).
  rewrite IH by (cbn in L; lia).
  rewrite <- app_assoc. reflexivity.
Qed.

Lemma served_before_perm l l' e :
  Permutation l l' -> served_before l e = served_before l' e.
Proof.
  unfold served_before. induction 1 as [| x l l' P IH | x y l | l l' l'' P IH P' IH'];
    cbn; [reflexivity | | | congruence].
  - destruct (beforeb x e); cbn; congruence.
  - destruct (beforeb x e), (beforeb y e); reflexivity.
Qed.

Lemma filter_none {A : Type} (p : A -> bool) l :
  (forall y, In y l -> p y = false) -> filter p l = [].
Proof.
  induction l as [| x l IH]; intros N; cbn; [reflexivity |].
  rewrite (N x) by (left; reflexivity).
  apply IH. intros y I. apply N. right. exact I.
Qed.

Lemma beforeb_false a b : ~ before a b -> beforeb a b = false.
Proof.
  intros N. apply not_true_is_false. rewrite beforeb_true. exact N.
Qed.

(** in a list sorted by serving order, the first [count] entries are the
    entries that fewer than [count] others are served before *)
Lemma add_units_served l :
  StronglySorted before l ->
  forall count,
    add_units count l
    = map (fun e => if (served_before l e <? count)%nat then add_unit e else e) l.
Proof.
  induction 1 as [| x l Srt IH F]; intros count.
  - unfold add_units. rewrite firstn_nil, skipn_nil. reflexivity.
  - rewrite Forall_forall in F.
    assert (Hx : served_before (x :: l) x = O).
    { unfold served_before. rewrite filter_none; [reflexivity |].
      intros y [<- | I]; apply beforeb_false;
        [apply before_irrefl | apply before_asym, F, I]. }
    assert (Hl : forall e, In e l ->
                           served_before (x :: l) e = S (served_before l e)).
    { intros e I. unfold served_before. cbn [filter].
      rewrite (proj2 (beforeb_true x e) (F e I)). reflexivity. }
    cbn [map]. rewrite Hx.
    destruct count as [| k].
    + unfold add_units. cbn [firstn skipn map app Nat.ltb Nat.leb].
      f_equal. rewrite <- (map_id l) at 1. apply map_ext.
      intros e.
      destruct (Nat.ltb_spec (served_before (x :: l) e) 0); [lia | reflexivity].
    + unfold add_units. cbn [firstn skipn map app]. f_equal.
      fold (add_units k l). rewrite IH. apply map_ext_in.
      intros e I. rewrite (Hl e I). reflexivity.
Qed.

(** adding units on the first [count] entries adds [count] to the sum *)
Lemma add_units_total count l :
  (count <= List.length l)%nat ->
  total_of (map share (add_units count l))
  = total_of (map share l) + Z.of_nat count.
Proof.
  revert l. induction count as [| k IH]; intros l L.
  - unfold add_units. cbn [firstn skipn map app Z.of_nat].
    rewrite Z.add_0_r. reflexivity.
  - destruct l as [| e l]; [cbn in L; lia |].
    unfold add_units in *. cbn [firstn skipn map app].
    specialize (IH l ltac:(cbn in L; lia)).
    unfold total_of in *. cbn [fold_right add_unit share]. lia.
Qed.

End DistributeFacts.

Section AllocateFacts.

Import Allocation AllocationModel.

Lemma map_throwing_length {A B : Type} (f : A -> result B) l :
  forall l', map_throwing f l = Ok l' -> List.length l' = List.length l.
Proof.
  induction l as [| x l IH]; cbn; intros l'; [intros [= <-]; reflexivity |].
  destruct (f x); [| discriminate]. cbn [bind].
  destruct (map_throwing f l) as [ys |]; [| discriminate]. cbn [bind].
  intros [= <-]. cbn. rewrite (IH ys eq_refl). reflexivity.
Qed.

Lemma map_index_sorted (g : Entry -> Entry) l :
  (forall e, index (g e) = index e) ->
  StronglySorted index_lt l -> StronglySorted index_lt (map g l).
Proof.
  intros G. induction 1 as [| x l Srt IH F]; cbn; constructor; [exact IH |].
  rewrite Forall_forall in *. intros e' I. apply in_map_iff in I.
  destruct I as (e & <- & I). specialize (F e I).
  unfold index_lt in *. rewrite !G. exact F.
Qed.

Variables (amount : Z) (ratios : list string) (scaledRatios : list ScaledRatio).
Hypothesis ratios_nonempty : ratios <> [].
Hypothesis ratios_scaled : map_throwing scaleRatio ratios = Ok scaledRatios.

Local Abbreviation normalizedRatios := (normalize scaledRatios).
Local Abbreviation total := (sum_of normalizedRatios).

Hypothesis total_nonzero : total <> 0.

Local Abbreviation results := (entries amount total 0 normalizedRatios).
Local Abbreviation leftOver := (amount - total_of (map share results)).

Lemma normalizedRatios_nonempty : normalizedRatios <> [].
Proof.
  intros E. apply ratios_nonempty, length_zero_iff_nil.
  rewrite <- (map_throwing_length _ _ _ ratios_scaled).
  unfold normalize in E.
  apply (f_equal (@List.length Z)) in E. rewrite length_map in E. exact E.
Qed.

Lemma leftOver_in_range : (Z.to_nat leftOver <= List.length results)%nat.
Proof.
  pose proof (leftover_bound amount total total_nonzero normalizedRatios
                (eq_sym (sum_of_total_of normalizedRatios))
                normalizedRatios_nonempty) as B.
  rewrite entries_length. lia.
Qed.

(** [allocate] on a valid call: the share loop, the stable sort by
    remainder, the unit loop and the sort back by index all succeed *)
Lemma allocate_pipeline :
  allocate amount ratios
  = Ok (map share
          (sort_by by_index
             (add_units (Z.to_nat leftOver)
                (sort_by by_remainder_desc results)))).
Proof.
  unfold allocate, throw_if.
  assert (N : (List.length ratios =? 0)%nat = false).
  { apply Nat.eqb_neq. intros Z0. apply ratios_nonempty, length_zero_iff_nil, Z0. }
  rewrite N, ratios_scaled. cbn [bind].
  destruct (Z.eqb_spec total 0) as [Z0 | _]; [contradiction |]. cbn [bind].
  rewrite shares_loop_closed by exact total_nonzero. cbn [bind app].
  rewrite Z.add_0_l. pose proof (distribute_loop_closed (Z.to_nat leftOver) []
                (sort_by by_remainder_desc results)) as D.
  cbn [List.length app] in D. rewrite D; [reflexivity |].
  rewrite (Permutation_length (sort_by_perm by_remainder_desc results)).
  exact leftOver_in_range.
Qed.

(** the entries after the unit loop and the sort back by index *)
Lemma allocate_entries :
  sort_by by_index
    (add_units (Z.to_nat leftOver) (sort_by by_remainder_desc results))
  = map (fun e =>
           if (served_before results e <? Z.to_nat leftOver)%nat
           then add_unit e else e)
        results.
Proof.
  pose proof (sort_by_perm by_remainder_desc results) as P.
  rewrite add_units_served
    by (apply sort_by_remainder_sorted, entries_sorted).
  apply sort_by_index_restores.
  - apply map_index_sorted; [| apply entries_sorted].
    intros e. destruct (_ <? _)%nat; reflexivity.
  - erewrite map_ext; [apply Permutation_map; exact P |].
    intros e. cbn beta. rewrite (served_before_perm _ _ e P). reflexivity.
Qed.

End AllocateFacts.

Lemma filter_map_length {A B : Type} (p : B -> bool) (f : A -> B) l :
  List.length (filter p (map f l)) = List.length (filter (fun x => p (f x)) l).
Proof.
  induction l as [| x l IH]; cbn; [reflexivity |].
  destruct (p (f x)); cbn; rewrite IH; reflexivity.
Qed.

(** the number of entries served before an entry is the rank of its index
    among the remainders *)
Lemma served_before_rank amount total ws e :
  In e (AllocationModel.entries amount total 0 ws) ->
  AllocationModel.served_before (AllocationModel.entries amount total 0 ws) e
  = LargestRemainder.rank (map (fun w => Z.rem (amount * w) total) ws)
      (Allocation.index e).
Proof.
  intros I. unfold AllocationModel.served_before, LargestRemainder.rank.
  rewrite length_map, <- (entries_index amount total ws 0), filter_map_length.
  f_equal. apply filter_ext_in. intros y Iy.
  destruct (entries_in amount total ws e I) as (_ & _ & Re).
  destruct (entries_in amount total ws y Iy) as (_ & _ & Ry).
  unfold AllocationModel.beforeb, LargestRemainder.precedes.
  rewrite <- Re, <- Ry. reflexivity.
Qed.

(** C7: on a valid call (ratios not empty, all of them parsed, total not
    zero) [allocate] returns, in input order, each truncated share plus one
    unit for the indices whose rank is below the leftover, where the rank
    of an index counts the indices with a larger remainder and the smaller
    indices with an equal remainder; [allocate(10000, [1, 1, 1])] is
    [[3334, 3333, 3333]]. *)
Theorem C7_largest_remainder (amount : Z) (ratios : list string)
  (scaledRatios : list Allocation.ScaledRatio) :
  ratios <> [] ->
  Allocation.map_throwing Allocation.scaleRatio ratios = Ok scaledRatios ->
  let normalizedRatios := Allocation.normalize scaledRatios in
  let total := Allocation.sum_of normalizedRatios in
  total <> 0 ->
  let shares := map (fun w => Z.quot (amount * w) total) normalizedRatios in
  let remainders := map (fun w => Z.rem (amount * w) total) normalizedRatios in
  let leftover := amount - Allocation.sum_of shares in
  Allocation.allocate amount ratios
  = Ok (LargestRemainder.distribute shares remainders leftover)
  /\ Allocation.allocate 10000 ["1"; "1"; "1"]%string = Ok [3334; 3333; 3333].
Proof.
  intros N P ws total T shares remainders leftover.
  split; [| reflexivity].
  rewrite (allocate_pipeline amount ratios scaledRatios N P T).
  rewrite (allocate_entries amount scaledRatios).
  fold ws. fold total.
  set (results := AllocationModel.entries amount total 0 ws).
  assert (L : amount - AllocationModel.total_of (map Allocation.share results)
              = leftover).
  { unfold leftover, shares, results.
    rewrite sum_of_total_of, entries_share. reflexivity. }
  rewrite L. unfold LargestRemainder.distribute.
  unfold shares at 2. rewrite length_map.
  rewrite <- (entries_index amount total ws 0). fold results.
  rewrite !map_map. f_equal. apply map_ext_in. intros e I.
  destruct (entries_in amount total ws e I) as (_ & Sh & _).
  fold shares in Sh. rewrite <- Sh.
  unfold results. rewrite (served_before_rank amount total ws e I).
  fold remainders.
  replace (Z.of_nat (LargestRemainder.rank remainders (Allocation.index e))
           <? leftover)
    with (LargestRemainder.rank remainders (Allocation.index e)
          <? Z.to_nat leftover)%nat.
  - destruct (_ <? _)%nat; cbn; lia.
  - destruct (Nat.ltb_spec (LargestRemainder.rank remainders (Allocation.index e))
                (Z.to_nat leftover)),
      (Z.ltb_spec (Z.of_nat (LargestRemainder.rank remainders (Allocation.index e)))
         leftover); lia || reflexivity.
Qed.

Lemma C7_largest_remainder_witness :
  Allocation.allocate 5 ["3"; "3"; "1"]%string
  = Ok (LargestRemainder.distribute [2; 2; 0] [1; 1; 5] 1).
Proof.
  assert (P : Allocation.map_throwing Allocation.scaleRatio ["3"; "3"; "1"]%string
              = Ok [Allocation.mkScaledRatio 3 0; Allocation.mkScaledRatio 3 0;
                    Allocation.mkScaledRatio 1 0]) by reflexivity.
  apply (C7_largest_remainder 5 ["3"; "3"; "1"]%string _ ltac:(discriminate) P).
  vm_compute. discriminate.
Defined.

Section ConservationFacts.

Import Allocation AllocationModel.

Lemma served_before_head x l :
  Forall (before x) l -> served_before (x :: l) x = O.
Proof.
  rewrite Forall_forall. intros F.
  unfold served_before. rewrite filter_none; [reflexivity |].
  intros y [<- | I]; apply beforeb_false;
    [apply before_irrefl | apply before_asym, F, I].
Qed.

Lemma served_before_tail x l e :
  before x e -> served_before (x :: l) e = S (served_before l e).
Proof.
  intros B. unfold served_before. cbn [filter].
  rewrite (proj2 (beforeb_true x e) B). reflexivity.
Qed.

(** in serving order, an entry that fewer than [count] others are served
    before is among the first [count] *)
Lemma served_before_firstn l :
  StronglySorted before l ->
  forall count e,
    In e l -> (served_before l e < count)%nat -> In e (firstn count l).
Proof.
  induction 1 as [| x l Srt IH F]; intros count e I L; [destruct I |].
  destruct count as [| k]; [lia |].
  cbn [firstn]. destruct I as [-> | I]; [left; reflexivity | right].
  apply IH; [exact I |].
  rewrite served_before_tail in L by (rewrite Forall_forall in F; apply F, I).
  lia.
Qed.

Lemma sorted_app_before l1 l2 :
  StronglySorted before (l1 ++ l2) ->
  forall a b, In a l1 -> In b l2 -> before a b.
Proof.
  induction l1 as [| x l1 IH]; cbn; intros Srt a b Ia Ib; [destruct Ia |].
  inversion Srt as [| ? ? Srt' F]; subst.
  destruct Ia as [<- | Ia]; [| apply IH; assumption].
  rewrite Forall_forall in F. apply F, in_or_app. right. exact Ib.
Qed.

Lemma total_of_bounds {A : Type} (f : A -> Z) lo hi l :
  (forall e, In e l -> lo <= f e <= hi) ->
  Z.of_nat (List.length l) * lo <= total_of (map f l)
  <= Z.of_nat (List.length l) * hi.
Proof.
  unfold total_of. induction l as [| x l IH]; intros B; [cbn; lia |].
  cbn [map fold_right List.length].
  specialize (IH (fun e I => B e (or_intror I))).
  specialize (B x (or_introl eq_refl)). lia.
Qed.

(** With remainders in [0, total) that add up to [total * count], each
    of the first [count] entries in serving order has a positive
    remainder. *)
Lemma served_units_have_remainder total count l :
  StronglySorted before l ->
  (forall e, In e l -> 0 <= remainder e < total) ->
  total_of (map remainder l) = total * Z.of_nat count ->
  forall e, In e (firstn count l) -> 0 < remainder e.
Proof.
  intros Srt B T e I.
  destruct (Z.lt_ge_cases 0 (remainder e)) as [G | G]; [exact G | exfalso].
  assert (Ie : In e l)
    by (rewrite <- (firstn_skipn count l); apply in_or_app; left; exact I).
  assert (E0 : remainder e = 0) by (specialize (B e Ie); lia).
  rewrite <- (firstn_skipn count l) in Srt, T.
  rewrite map_app, total_of_app in T.
  assert (Tail : total_of (map remainder (skipn count l)) = 0).
  { pose proof (total_of_bounds remainder 0 0 (skipn count l)) as H.
    rewrite !Z.mul_0_r in H. apply Z.le_antisymm; apply H; intros y Iy.
    - assert (Il : In y l)
        by (rewrite <- (firstn_skipn count l); apply in_or_app; right; exact Iy).
      specialize (B y Il).
      pose proof (sorted_app_before _ _ Srt e y I Iy) as Bf.
      unfold before in Bf. lia.
    - assert (Il : In y l)
        by (rewrite <- (firstn_skipn count l); apply in_or_app; right; exact Iy).
      specialize (B y Il).
      pose proof (sorted_app_before _ _ Srt e y I Iy) as Bf.
      unfold before in Bf. lia. }
  destruct (in_split _ _ I) as (l1 & l2 & Sp).
  assert (Len : (List.length l1 + List.length l2 < count)%nat).
  { pose proof (firstn_le_length count l) as Le.
    rewrite Sp, length_app in Le. cbn in Le. lia. }
  rewrite Sp, map_app, total_of_app in T. cbn [map] in T.
  change (total_of (remainder e :: map remainder l2))
    with (remainder e + total_of (map remainder l2)) in T.
  assert (Bs : forall y, In y l1 \/ In y l2 -> 0 <= remainder y <= total - 1).
  { intros y Iy.
    assert (In y l); [| specialize (B y H); lia].
    rewrite <- (firstn_skipn count l), Sp. apply in_or_app. left.
    apply in_or_app. cbn. tauto. }
  pose proof (total_of_bounds remainder 0 (total - 1) l1
                (fun y Iy => Bs y (or_introl Iy))) as B1.
  pose proof (total_of_bounds remainder 0 (total - 1) l2
                (fun y Iy => Bs y (or_intror Iy))) as B2.
  assert (0 < total) by (specialize (B e Ie); lia).
  nia.
Qed.

End ConservationFacts.

Lemma total_of_nonnegative ws :
  Forall (fun w => 0 <= w) ws -> 0 <= AllocationModel.total_of ws.
Proof.
  unfold AllocationModel.total_of. induction 1 as [| w ws W F IH]; cbn; lia.
Qed.

Lemma entries_nth_error amount total ws :
  forall first i,
    (i < List.length ws)%nat ->
    nth_error (AllocationModel.entries amount total first ws) i
    = Some (Allocation.mkEntry
              (Z.quot (amount * nth i ws 0) total)
              (Z.rem (amount * nth i ws 0) total)
              (first + i)).
Proof.
  induction ws as [| w ws IH]; intros first i L; cbn in L; [lia |].
  destruct i as [| i]; cbn [AllocationModel.entries nth_error nth].
  - rewrite Nat.add_0_r. reflexivity.
  - rewrite IH by lia. do 2 f_equal. lia.
Qed.

Section Conservation.

Import Allocation AllocationModel.

Variables (amount : Z) (ratios : list string) (scaledRatios : list ScaledRatio).
Hypothesis ratios_nonempty : ratios <> [].
Hypothesis ratios_scaled : map_throwing scaleRatio ratios = Ok scaledRatios.

Local Abbreviation normalizedRatios := (normalize scaledRatios).
Local Abbreviation total := (sum_of normalizedRatios).

Hypothesis total_nonzero : total <> 0.

Local Abbreviation results := (entries amount total 0 normalizedRatios).
Local Abbreviation leftOver := (amount - total_of (map share results)).

(** the parts add up to the truncated shares plus the units handed out,
    which are the leftover when it is not negative and none otherwise *)
Lemma allocate_total :
  exists parts,
    allocate amount ratios = Ok parts
    /\ List.length parts = List.length ratios
    /\ total_of parts = amount - leftOver + Z.max 0 leftOver.
Proof.
  eexists. split.
  { exact (allocate_pipeline amount ratios scaledRatios ratios_nonempty
             ratios_scaled total_nonzero). }
  pose proof (leftOver_in_range amount ratios scaledRatios ratios_nonempty
                ratios_scaled total_nonzero) as R.
  set (sorted := sort_by by_remainder_desc results) in *.
  assert (P : Permutation sorted results) by apply sort_by_perm.
  split.
  - rewrite length_map, (Permutation_length (sort_by_perm _ _)).
    unfold add_units. rewrite length_app, length_map, <- length_app, firstn_skipn.
    rewrite (Permutation_length P).
    rewrite entries_length. unfold normalize.
    rewrite length_map. apply (map_throwing_length _ _ _ ratios_scaled).
  - rewrite (total_of_perm _ _ (Permutation_map share (sort_by_perm by_index _))).
    rewrite add_units_total by (rewrite (Permutation_length P); exact R).
    rewrite (total_of_perm _ _ (Permutation_map share P)).
    lia.
Qed.

Hypothesis amount_nonnegative : 0 <= amount.
Hypothesis ratios_nonnegative : Forall (fun w => 0 <= w) normalizedRatios.

Lemma total_positive : 0 < total.
Proof.
  pose proof (total_of_nonnegative normalizedRatios ratios_nonnegative).
  rewrite sum_of_total_of in *. lia.
Qed.

Lemma results_remainder e :
  In e results -> 0 <= remainder e < total.
Proof.
  intros I. pose proof total_positive as T.
  destruct (entries_in amount total normalizedRatios e I) as (L & _ & Re).
  assert (N : nth (index e)
                 (map (fun w => Z.rem (amount * w) total) normalizedRatios) 0
               = Z.rem (amount * nth (index e) normalizedRatios 0) total).
  { rewrite <- (map_nth (fun w => Z.rem (amount * w) total)). f_equal.
    rewrite Z.mul_0_r, Z.rem_0_l by lia. reflexivity. }
  rewrite Re, N.
  pose proof ratios_nonnegative as Nn. rewrite Forall_forall in Nn.
  apply Z.rem_bound_pos; [| exact T].
  apply Z.mul_nonneg_nonneg; [exact amount_nonnegative |].
  apply Nn, nth_In, L.
Qed.

Lemma leftOver_units :
  total_of (map remainder results) = total * leftOver /\ 0 <= leftOver.
Proof.
  pose proof (entries_division amount total normalizedRatios 0) as D.
  assert (E : total_of normalizedRatios = total)
    by (rewrite sum_of_total_of; reflexivity).
  rewrite E in D.
  assert (T : total_of (map remainder results) = total * leftOver)
    by lia.
  split; [exact T |].
  pose proof total_positive.
  pose proof (total_of_bounds remainder 0 total results
                (fun e I => ltac:(pose proof (results_remainder e I); lia))) as B.
  nia.
Qed.

(** X1: for a non-negative amount and non-negative ratios the parts add up
    to the amount, and each part is within one unit of its exact
    proportional share. *)
Lemma allocate_nonnegative :
  exists parts,
    allocate amount ratios = Ok parts
    /\ List.length parts = List.length ratios
    /\ total_of parts = amount
    /\ forall i,
        (i < List.length normalizedRatios)%nat ->
        Z.abs (nth i parts 0 * total - amount * nth i normalizedRatios 0) < total.
Proof.
  destruct allocate_total as (parts & A & Len & Sum).
  destruct leftOver_units as [Units Pos].
  exists parts. split; [exact A |]. split; [exact Len |].
  split; [lia |].
  intros i Li.
  rewrite (allocate_pipeline amount ratios scaledRatios ratios_nonempty
             ratios_scaled total_nonzero) in A.
  rewrite allocate_entries in A. injection A as <-.
  rewrite map_map.
  pose proof (entries_nth_error amount total normalizedRatios 0 i Li) as E. cbn [Nat.add] in E.
  set (e := mkEntry (Z.quot (amount * nth i normalizedRatios 0) total)
              (Z.rem (amount * nth i normalizedRatios 0) total) i) in *.
  erewrite nth_error_nth; [| rewrite nth_error_map, E; reflexivity].
  assert (Ie : In e results) by (eapply nth_error_In; exact E).
  pose proof (results_remainder e Ie) as Re.
  pose proof (Z.quot_rem' (amount * nth i normalizedRatios 0) total) as QR.
  set (sorted := sort_by by_remainder_desc results).
  assert (P : Permutation sorted results) by apply sort_by_perm.
  destruct (Nat.ltb_spec (served_before results e) (Z.to_nat leftOver)) as [Lt | Ge].
  - assert (0 < remainder e).
    { apply (served_units_have_remainder total (Z.to_nat leftOver) sorted).
      - apply sort_by_remainder_sorted, entries_sorted.
      - intros y Iy. apply results_remainder.
        eapply Permutation_in; [exact P | exact Iy].
      - rewrite (total_of_perm _ _ (Permutation_map remainder P)), Units. lia.
      - apply served_before_firstn.
        + apply sort_by_remainder_sorted, entries_sorted.
        + eapply Permutation_in; [symmetry; exact P | exact Ie].
        + rewrite (served_before_perm _ _ e P). exact Lt. }
    cbn [add_unit share remainder e] in *. lia.
  - cbn [share remainder e] in *. lia.
Qed.

End Conservation.

(** X2: on a valid call the parts add up to the amount exactly when the
    truncated shares leave a non-negative leftover *)
Lemma allocate_conserves_iff amount ratios scaledRatios parts :
  ratios <> [] ->
  Allocation.map_throwing Allocation.scaleRatio ratios = Ok scaledRatios ->
  let normalizedRatios := Allocation.normalize scaledRatios in
  let total := Allocation.sum_of normalizedRatios in
  total <> 0 ->
  Allocation.allocate amount ratios = Ok parts ->
  AllocationModel.total_of parts = amount
  <-> Allocation.sum_of (map (fun w => Z.quot (amount * w) total) normalizedRatios)
      <= amount.
Proof.
  intros N P ws total T A.
  destruct (allocate_total amount ratios scaledRatios N P T)
    as (parts' & A' & _ & Sum).
  fold ws in Sum. fold total in Sum.
  rewrite A in A'. injection A' as <-.
  rewrite entries_share in Sum. rewrite sum_of_total_of. lia.
Qed.

(** C1 on the code: for the amount -100 and the ratios [1, 1, 1] the
    shares are truncated toward zero to -33 each, the leftover -1 is
    negative, the unit loop does not run, and the parts add up to -99, not
    to -100; each part is still within one unit of -100/3. *)
Theorem C1_negative_amount_not_conserved :
  Allocation.allocate (-100) ["1"; "1"; "1"]%string = Ok [-33; -33; -33]
  /\ AllocationModel.total_of [-33; -33; -33] = -99
  /\ AllocationModel.total_of [-33; -33; -33] <> -100.
Proof. repeat split. discriminate. Qed.

(** * Further properties *)

(** ** Rounding engine: nearest integer, ties, negation *)

Lemma away_gap n d :
  d <> 0 -> Z.rem n d <> 0 ->
  Z.abs (n - PolicyTable.away (PolicyTable.positive_result n d) (Z.quot n d) * d)
  = Z.abs d - Z.abs (Z.rem n d).
Proof.
  intros D R. destruct (trunc_division n d D) as (E & B & P & N).
  unfold PolicyTable.positive_result, PolicyTable.away.
  set (q := Z.quot n d) in *. set (r := Z.rem n d) in *.
  destruct (Z.ltb_spec n 0), (Z.ltb_spec d 0); cbn [Bool.eqb].
  - replace (n - (q + 1) * d) with (r - d) by lia. lia.
  - replace (n - (q - 1) * d) with (r + d) by lia. lia.
  - replace (n - (q - 1) * d) with (r + d) by lia. lia.
  - replace (n - (q + 1) * d) with (r - d) by lia. lia.
Qed.

Lemma classify_cases r d :
  match PolicyTable.classify r d with
  | PolicyTable.LessThanHalf => 2 * Z.abs r < Z.abs d
  | PolicyTable.ExactlyHalf => 2 * Z.abs r = Z.abs d
  | PolicyTable.MoreThanHalf => 2 * Z.abs r > Z.abs d
  end.
Proof.
  unfold PolicyTable.classify.
  destruct (Z.compare_spec (2 * Z.abs r) (Z.abs d)); lia.
Qed.

(** X7: the three HALF modes return a nearest integer: no integer [k] has
    [k * d] closer to [n] than the result. *)
Theorem half_modes_round_to_nearest (n d : Z) (mode : RoundingMode) :
  d <> 0 ->
  mode = HALF_UP \/ mode = HALF_DOWN \/ mode = HALF_EVEN ->
  exists r,
    divideWithRounding n d mode = Ok r
    /\ 2 * Z.abs (n - r * d) <= Z.abs d
    /\ forall k, Z.abs (n - r * d) <= Z.abs (n - k * d).
Proof.
  intros D M.
  enough (G : exists r, divideWithRounding n d mode = Ok r
                        /\ 2 * Z.abs (n - r * d) <= Z.abs d).
  { destruct G as (r & E & H). exists r. repeat split; [exact E | exact H |].
    intros k. destruct (Z.eq_dec k r) as [-> | K]; [lia |].
    assert (Z.abs d <= Z.abs ((r - k) * d)).
    { rewrite Z.abs_mul. assert (1 <= Z.abs (r - k)) by lia. nia. }
    replace (n - k * d) with ((n - r * d) + (r - k) * d) by lia. lia. }
  rewrite divideWithRounding_unfold by assumption.
  destruct (trunc_division n d D) as (E & B & _).
  destruct (Z.eqb_spec (Z.rem n d) 0) as [R | R].
  - exists (Z.quot n d). split; [reflexivity |].
    replace (n - Z.quot n d * d) with 0 by lia. lia.
  - exists (PolicyTable.lookup n d mode). split; [reflexivity |].
    pose proof (away_gap n d D R) as A.
    pose proof (classify_cases (Z.rem n d) d) as C.
    assert (Q : Z.abs (n - Z.quot n d * d) = Z.abs (Z.rem n d))
      by (f_equal; lia).
    unfold PolicyTable.lookup.
    destruct M as [-> | [-> | ->]];
      destruct (PolicyTable.classify (Z.rem n d) d); cbn [PolicyTable.entry];
      try destruct (Z.odd (Z.quot n d)); lia.
Qed.

Lemma half_modes_round_to_nearest_witness :
  exists r,
    divideWithRounding (-7) 2 HALF_EVEN = Ok r
    /\ 2 * Z.abs (-7 - r * 2) <= Z.abs 2
    /\ forall k, Z.abs (-7 - r * 2) <= Z.abs (-7 - k * 2).
Proof.
  apply (half_modes_round_to_nearest (-7) 2 HALF_EVEN); [lia | auto].
Defined.



(** X9: negating the numerator negates the result under HALF_UP, HALF_DOWN,
    HALF_EVEN and TRUNCATE, and exchanges FLOOR with CEIL. *)
Theorem negated_numerator (n d : Z) (mode : RoundingMode) (r : Z) :
  d <> 0 ->
  divideWithRounding n d mode = Ok r ->
  divideWithRounding (- n) d
    match mode with
    | FLOOR => CEIL
    | CEIL => FLOOR
    | _ => mode
    end
  = Ok (- r).
Proof.
  intros D. rewrite !divideWithRounding_unfold by assumption.
  rewrite Z.rem_opp_l, Z.quot_opp_l by assumption.
  destruct (Z.eqb_spec (Z.rem n d) 0) as [R | R].
  - intros [= <-]. rewrite R. reflexivity.
  - destruct (Z.eqb_spec (- Z.rem n d) 0) as [R' | _]; [lia |].
    intros [= <-]. f_equal. unfold PolicyTable.lookup.
    rewrite Z.rem_opp_l, Z.quot_opp_l by assumption.
    assert (C : PolicyTable.classify (- Z.rem n d) d
                = PolicyTable.classify (Z.rem n d) d)
      by (unfold PolicyTable.classify; rewrite Z.abs_opp; reflexivity).
    assert (P : PolicyTable.positive_result (- n) d
                = negb (PolicyTable.positive_result n d)).
    { assert (n <> 0) by (intros ->; apply R; apply Z.rem_0_l; assumption).
      unfold PolicyTable.positive_result.
      destruct (Z.ltb_spec (- n) 0), (Z.ltb_spec n 0), (d <? 0);
        reflexivity || lia. }
    rewrite C, P. unfold PolicyTable.away.
    destruct mode, (PolicyTable.classify (Z.rem n d) d),
      (PolicyTable.positive_result n d);
      cbn [PolicyTable.entry PolicyTable.away negb]; rewrite ?Z.odd_opp;
      try destruct (Z.odd (Z.quot n d)); lia.
Qed.

Lemma negated_numerator_witness :
  divideWithRounding (- 7) 2 CEIL = Ok (- 3).
Proof.
  apply (negated_numerator 7 2 FLOOR 3); [lia | reflexivity].
Defined.

(** ** Arithmetic operators: rounded results and inverse operations *)

Lemma rounded_within_one n d mode :
  d <> 0 ->
  exists r, divideWithRounding n d mode = Ok r /\ Z.abs (n - r * d) < Z.abs d.
Proof.
  intros D. rewrite divideWithRounding_unfold by assumption.
  destruct (trunc_division n d D) as (E & B & _).
  destruct (Z.eqb_spec (Z.rem n d) 0) as [R | R].
  - exists (Z.quot n d). split; [reflexivity |].
    replace (n - Z.quot n d * d) with 0 by lia. lia.
  - exists (PolicyTable.lookup n d mode). split; [reflexivity |].
    unfold PolicyTable.lookup.
    destruct (entry_cases mode (PolicyTable.positive_result n d)
                (PolicyTable.classify (Z.rem n d) d) (Z.quot n d)) as [-> | ->].
    + replace (n - Z.quot n d * d) with (Z.rem n d) by lia. exact B.
    + apply away_distance; assumption.
Qed.

Lemma multiply_unfold amount multiplier r rounding :
  Arithmetic.parseMultiplier multiplier = Ok r ->
  Arithmetic.multiply amount multiplier rounding
  = if Z.rem (amount * Arithmetic.numerator r) (Arithmetic.denominator r) =? 0
    then Ok (Z.quot (amount * Arithmetic.numerator r) (Arithmetic.denominator r))
    else match rounding with
         | None => Throw (RoundingRequiredError "multiply")
         | Some mode =>
             divideWithRounding (amount * Arithmetic.numerator r)
               (Arithmetic.denominator r) mode
         end.
Proof.
  intros P. destruct (parseMultiplier_denominator _ _ P) as [_ D].
  unfold Arithmetic.multiply. rewrite P. cbn [bind].
  rewrite bigint_rem_nonzero, bigint_div_nonzero by lia. reflexivity.
Qed.

Lemma divide_unfold amount divisor r rounding :
  Arithmetic.parseMultiplier divisor = Ok r ->
  Arithmetic.numerator r <> 0 ->
  Arithmetic.divide amount divisor rounding
  = if Z.rem (amount * Arithmetic.denominator r) (Arithmetic.numerator r) =? 0
    then Ok (Z.quot (amount * Arithmetic.denominator r) (Arithmetic.numerator r))
    else match rounding with
         | None => Throw (RoundingRequiredError "divide")
         | Some mode =>
             divideWithRounding (amount * Arithmetic.denominator r)
               (Arithmetic.numerator r) mode
         end.
Proof.
  intros P N. unfold Arithmetic.divide. rewrite P. cbn [bind].
  rewrite bigint_rem_nonzero, bigint_div_nonzero by assumption. reflexivity.
Qed.

(** X10: with a rounding mode, [multiply] and [divide] by a parsed scalar with a
    non-zero numerator always return a value, and the value is less than
    one minor unit away from the exact product or quotient. *)
Theorem rounded_arithmetic_within_one_unit (amount : Z) (scalar : scalar)
  (r : Arithmetic.Ratio) (mode : RoundingMode) :
  Arithmetic.parseMultiplier scalar = Ok r ->
  (exists product,
     Arithmetic.multiply amount scalar (Some mode) = Ok product
     /\ Z.abs (amount * Arithmetic.numerator r - product * Arithmetic.denominator r)
        < Arithmetic.denominator r)
  /\ (Arithmetic.numerator r <> 0 ->
      exists quotient,
        Arithmetic.divide amount scalar (Some mode) = Ok quotient
        /\ Z.abs (amount * Arithmetic.denominator r
                  - quotient * Arithmetic.numerator r)
           < Z.abs (Arithmetic.numerator r)).
Proof.
  intros P. destruct (parseMultiplier_denominator _ _ P) as [_ D]. split.
  - rewrite (multiply_unfold _ _ _ _ P).
    destruct (Z.eqb_spec (Z.rem (amount * Arithmetic.numerator r)
                            (Arithmetic.denominator r)) 0) as [E | E].
    + eexists. split; [reflexivity |].
      pose proof (Z.quot_rem' (amount * Arithmetic.numerator r)
                    (Arithmetic.denominator r)). lia.
    + destruct (rounded_within_one (amount * Arithmetic.numerator r)
                  (Arithmetic.denominator r) mode ltac:(lia)) as (v & -> & B).
      exists v. split; [reflexivity | lia].
  - intros N. rewrite (divide_unfold _ _ _ _ P N).
    destruct (Z.eqb_spec (Z.rem (amount * Arithmetic.denominator r)
                            (Arithmetic.numerator r)) 0) as [E | E].
    + eexists. split; [reflexivity |].
      pose proof (Z.quot_rem' (amount * Arithmetic.denominator r)
                    (Arithmetic.numerator r)). lia.
    + destruct (rounded_within_one (amount * Arithmetic.denominator r)
                  (Arithmetic.numerator r) mode N) as (v & -> & B).
      exists v. split; [reflexivity | exact B].
Qed.

Lemma rounded_arithmetic_within_one_unit_witness :
  exists quotient,
    Arithmetic.divide 1000 (Str "0.3") (Some HALF_EVEN) = Ok quotient
    /\ Z.abs (1000 * 10 - quotient * 3) < Z.abs 3.
Proof.
  assert (P : Arithmetic.parseMultiplier (Str "0.3") = Ok (Arithmetic.mkRatio 3 10))
    by reflexivity.
  destruct (rounded_arithmetic_within_one_unit 1000 (Str "0.3") _ HALF_EVEN P)
    as [_ Q].
  apply Q. cbn. lia.
Defined.

(** X11: dividing an exact product by the same scalar gives the amount back, and
    so does multiplying an exact quotient, whatever rounding arguments are
    passed. *)
Theorem multiply_divide_inverse (amount : Z) (scalar : scalar)
  (r : Arithmetic.Ratio) (rounding rounding' : option RoundingMode) :
  Arithmetic.parseMultiplier scalar = Ok r ->
  Arithmetic.numerator r <> 0 ->
  (Z.rem (amount * Arithmetic.numerator r) (Arithmetic.denominator r) = 0 ->
   exists product,
     Arithmetic.multiply amount scalar rounding = Ok product
     /\ Arithmetic.divide product scalar rounding' = Ok amount)
  /\ (Z.rem (amount * Arithmetic.denominator r) (Arithmetic.numerator r) = 0 ->
      exists quotient,
        Arithmetic.divide amount scalar rounding = Ok quotient
        /\ Arithmetic.multiply quotient scalar rounding' = Ok amount).
Proof.
  intros P N. destruct (parseMultiplier_denominator _ _ P) as [_ D].
  set (num := Arithmetic.numerator r) in *.
  set (den := Arithmetic.denominator r) in *.
  split; intros E.
  - exists (Z.quot (amount * num) den). split.
    + rewrite (multiply_unfold _ _ _ _ P). fold num den. rewrite E. reflexivity.
    + rewrite (divide_unfold _ _ _ _ P N). fold num den.
      assert (Q : Z.quot (amount * num) den * den = amount * num)
        by (pose proof (Z.quot_rem' (amount * num) den); lia).
      rewrite Q, Z.rem_mul, Z.quot_mul by assumption. reflexivity.
  - exists (Z.quot (amount * den) num). split.
    + rewrite (divide_unfold _ _ _ _ P N). fold num den. rewrite E. reflexivity.
    + rewrite (multiply_unfold _ _ _ _ P). fold num den.
      assert (Q : Z.quot (amount * den) num * num = amount * den)
        by (pose proof (Z.quot_rem' (amount * den) num); lia).
      rewrite Q, Z.rem_mul, Z.quot_mul by lia. reflexivity.
Qed.

Lemma multiply_divide_inverse_witness :
  exists product,
    Arithmetic.multiply 200 (Str "1.5") None = Ok product
    /\ Arithmetic.divide product (Str "1.5") None = Ok 200.
Proof.
  assert (P : Arithmetic.parseMultiplier (Str "1.5") = Ok (Arithmetic.mkRatio 15 10))
    by reflexivity.
  destruct (multiply_divide_inverse 200 (Str "1.5") _ None None P
              ltac:(cbn; lia)) as [M _].
  apply M. reflexivity.
Defined.

(** ** Decimal numerals: [BigInt(string)] and [bigint.toString()] *)

Section NumeralFacts.

Import JsString Decimal.

Lemma all_digits_cons c s :
  all_digits (String c s) = is_digit c && all_digits s.
Proof. unfold all_digits. cbn. rewrite is_digit_class. reflexivity. Qed.

Lemma all_digits_app s1 s2 :
  all_digits (s1 ++ s2) = all_digits s1 && all_digits s2.
Proof.
  induction s1 as [| c s1 IH]; [reflexivity |].
  cbn [String.append]. rewrite !all_digits_cons, IH, andb_assoc. reflexivity.
Qed.

Lemma all_digits_zeros k : all_digits (repeat_char "0" k) = true.
Proof. induction k as [| k IH]; [reflexivity |]. cbn. exact IH. Qed.

Lemma length_zeros c k : String.length (repeat_char c k) = k.
Proof. induction k as [| k IH]; cbn; [reflexivity | rewrite IH; reflexivity]. Qed.

Lemma length_append s1 s2 :
  String.length (s1 ++ s2) = (String.length s1 + String.length s2)%nat.
Proof.
  induction s1 as [| c s1 IH]; cbn; [reflexivity | rewrite IH; reflexivity].
Qed.

Lemma append_assoc (s1 s2 s3 : string) :
  ((s1 ++ s2) ++ s3 = s1 ++ (s2 ++ s3))%string.
Proof.
  induction s1 as [| c s1 IH]; cbn; [reflexivity | rewrite IH; reflexivity].
Qed.

Lemma append_empty_r (s : string) : (s ++ "")%string = s.
Proof.
  induction s as [| c s IH]; cbn; [reflexivity | rewrite IH; reflexivity].
Qed.

Lemma is_digit_value c :
  is_digit c = true -> digit_value 10 c = Some (Z.of_nat (nat_of_ascii c) - 48).
Proof.
  destruct c as [[] [] [] [] [] [] [] []]; cbn; (discriminate || reflexivity).
Qed.

Lemma value_from_append acc s1 s2 :
  value_from acc (s1 ++ s2) = value_from (value_from acc s1) s2.
Proof.
  revert acc. induction s1 as [| c s1 IH]; intros acc; cbn; [reflexivity |].
  apply IH.
Qed.

Lemma value_from_shift s :
  forall acc, value_from acc s = acc * 10 ^ Z.of_nat (String.length s) + value s.
Proof.
  unfold value. induction s as [| c s IH]; intros acc.
  - cbn. lia.
  - cbn [value_from String.length]. rewrite IH, (IH (0 * 10 + _)).
    rewrite Nat2Z.inj_succ, Z.pow_succ_r by lia. lia.
Qed.

Lemma value_append s1 s2 :
  value (s1 ++ s2) = value s1 * 10 ^ Z.of_nat (String.length s2) + value s2.
Proof.
  unfold value at 1. rewrite value_from_append, value_from_shift. reflexivity.
Qed.

Lemma value_zeros k : value (repeat_char "0" k) = 0.
Proof.
  unfold value. induction k as [| k IH]; [reflexivity |]. cbn. exact IH.
Qed.

Lemma digits_value_all_digits s :
  forall acc,
    all_digits s = true -> digits_value 10 acc s = Some (value_from acc s).
Proof.
  induction s as [| c s IH]; intros acc A; [reflexivity |].
  rewrite all_digits_cons in A. apply andb_prop in A. destruct A as [C A].
  cbn [digits_value value_from]. rewrite (is_digit_value c C). apply IH, A.
Qed.

Lemma numeral_all_digits s :
  all_digits s = true -> s <> EmptyString -> numeral 10 s = Some (value s).
Proof.
  intros A N. destruct s as [| c s]; [contradiction |].
  unfold numeral. apply digits_value_all_digits, A.
Qed.

(** white space is trimmed only at the two ends *)
Lemma drop_while_head (p : ascii -> bool) l :
  match l with
  | [] => True
  | c :: _ => p c = false
  end ->
  drop_while p l = l.
Proof. destruct l as [| c l]; cbn; [reflexivity | intros ->; reflexivity]. Qed.

Lemma trim_plain s :
  forallb (fun c => negb (is_whitespace c)) (list_ascii_of_string s) = true ->
  trim s = s.
Proof.
  intros A. unfold trim. rewrite forallb_forall in A.
  assert (H1 : drop_while is_whitespace (list_ascii_of_string s)
               = list_ascii_of_string s).
  { apply drop_while_head.
    destruct (list_ascii_of_string s) as [| c l]; [exact I |].
    apply negb_true_iff, A. left. reflexivity. }
  rewrite H1.
  assert (H2 : drop_while is_whitespace (rev (list_ascii_of_string s))
               = rev (list_ascii_of_string s)).
  { apply drop_while_head.
    destruct (rev (list_ascii_of_string s)) as [| c l] eqn:E; [exact I |].
    apply negb_true_iff, A, in_rev. rewrite E. left. reflexivity. }
  rewrite H2, rev_involutive. apply string_of_list_ascii_of_string.
Qed.

Lemma digit_plain c : is_digit c = true -> negb (is_whitespace c) = true.
Proof.
  destruct c as [[] [] [] [] [] [] [] []]; cbn; (discriminate || reflexivity).
Qed.

Lemma all_digits_plain s :
  all_digits s = true ->
  forallb (fun c => negb (is_whitespace c)) (list_ascii_of_string s) = true.
Proof.
  induction s as [| c s IH]; [reflexivity |].
  rewrite all_digits_cons. intros A. apply andb_prop in A. destruct A as [C A].
  cbn. rewrite (digit_plain c C). apply IH, A.
Qed.

Lemma digit_not_sign_or_prefix c :
  is_digit c = true ->
  (code c =? 43)%nat = false /\ (code c =? 45)%nat = false
  /\ ((code c =? 120) || (code c =? 88))%nat = false
  /\ ((code c =? 111) || (code c =? 79))%nat = false
  /\ ((code c =? 98) || (code c =? 66))%nat = false.
Proof.
  destruct c as [[] [] [] [] [] [] [] []]; cbn; intros D;
    (discriminate D || (repeat split; reflexivity)).
Qed.

(** [BigInt] reads a string of digits as the number it denotes, and a minus
    sign in front of it as the opposite *)
Lemma BigInt_digits (negative : bool) s :
  all_digits s = true -> s <> EmptyString ->
  BigInt (if negative then String "-" s else s)
  = Ok (if negative then - value s else value s).
Proof.
  intros A N. unfold BigInt, StringToBigInt.
  rewrite trim_plain.
  2:{ destruct negative; [cbn; apply all_digits_plain, A | apply all_digits_plain, A]. }
  destruct negative.
  - cbn [Nat.eqb code nat_of_ascii]. change (code "-" =? 43)%nat with false.
    change (code "-" =? 45)%nat with true. cbn iota.
    rewrite (numeral_all_digits s A N). reflexivity.
  - destruct s as [| c rest]; [contradiction |].
    pose proof A as A'. rewrite all_digits_cons in A'.
    apply andb_prop in A'. destruct A' as [C R].
    destruct (digit_not_sign_or_prefix c C) as (-> & -> & _).
    destruct rest as [| p body].
    + rewrite (numeral_all_digits _ A N). reflexivity.
    + rewrite all_digits_cons in R. apply andb_prop in R. destruct R as [Pd _].
      destruct (digit_not_sign_or_prefix p Pd) as (_ & _ & -> & -> & ->).
      rewrite !andb_false_r. rewrite (numeral_all_digits _ A N). reflexivity.
Qed.

End NumeralFacts.

Section RenderingFacts.

Import JsString Decimal.

Lemma digit_char_digit d :
  0 <= d < 10 ->
  is_digit (digit_char d) = true
  /\ Z.of_nat (nat_of_ascii (digit_char d)) - 48 = d.
Proof.
  intros B.
  assert (C : d = 0 \/ d = 1 \/ d = 2 \/ d = 3 \/ d = 4 \/ d = 5 \/ d = 6
              \/ d = 7 \/ d = 8 \/ d = 9) by lia.
  repeat (destruct C as [-> | C]; [split; reflexivity |]).
  subst d. split; reflexivity.
Qed.

Lemma digits_onto_step fuel n acc :
  digits_onto (S fuel) n acc
  = if n <? 10 then String (digit_char (n mod 10)) acc
    else digits_onto fuel (n / 10) (String (digit_char (n mod 10)) acc).
Proof. reflexivity. Qed.

(** the digits put in front of [acc] are the numeral of [n], without
    leading zeros *)
Lemma digits_onto_numeral fuel :
  forall n acc,
    0 <= n < 10 ^ Z.of_nat (S fuel) ->
    exists ds,
      digits_onto (S fuel) n acc = (ds ++ acc)%string
      /\ all_digits ds = true
      /\ ds <> EmptyString
      /\ value ds = n
      /\ (String.length ds = 1%nat
          \/ 10 ^ (Z.of_nat (String.length ds) - 1) <= n).
Proof.
  induction fuel as [| fuel IH]; intros n acc B.
  - change (10 ^ Z.of_nat 1) with 10 in B.
    destruct (digit_char_digit n B) as [D V].
    exists (String (digit_char (n mod 10)) EmptyString).
    rewrite digits_onto_step.
    destruct (Z.ltb_spec n 10) as [_ | G]; [| lia].
    rewrite !Z.mod_small by lia.
    repeat split; [| discriminate | | left; reflexivity].
    + rewrite all_digits_cons, D. reflexivity.
    + unfold value. cbn [value_from]. lia.
  - rewrite Nat2Z.inj_succ, Z.pow_succ_r in B by lia.
    assert (M : 0 <= n mod 10 < 10) by (apply Z.mod_pos_bound; lia).
    destruct (digit_char_digit _ M) as [D V].
    rewrite digits_onto_step.
    destruct (Z.ltb_spec n 10) as [L | G].
    + exists (String (digit_char (n mod 10)) EmptyString).
      repeat split; [| discriminate | | left; reflexivity].
      * rewrite all_digits_cons, D. reflexivity.
      * unfold value. cbn [value_from].
        pose proof (Z.mod_small n 10 ltac:(lia)). lia.
    + assert (Q : 0 <= n / 10 < 10 ^ Z.of_nat (S fuel)).
      { split; [apply Z.div_pos; lia |].
        apply Z.div_lt_upper_bound; lia. }
      destruct (IH (n / 10) (String (digit_char (n mod 10)) acc) Q)
        as (ds & E & A & N & Val & Lead).
      exists (ds ++ String (digit_char (n mod 10)) EmptyString)%string.
      repeat split.
      * rewrite E, append_assoc. reflexivity.
      * rewrite all_digits_app, A, all_digits_cons, D. reflexivity.
      * destruct ds; [contradiction | discriminate].
      * rewrite value_append, Val. unfold value at 1. cbn [value_from String.length].
        change (10 ^ Z.of_nat 1) with 10.
        pose proof (Z.div_mod n 10 ltac:(lia)). lia.
      * right. rewrite length_append. cbn [String.length].
        replace (Z.of_nat (String.length ds + 1) - 1)
          with (Z.succ (Z.of_nat (String.length ds) - 1)) by lia.
        assert (1 <= n / 10) by (apply Z.div_le_lower_bound; lia).
        assert (0 < String.length ds)%nat
          by (destruct ds; [contradiction | cbn; lia]).
        rewrite Z.pow_succ_r by lia.
        destruct Lead as [One | Lead].
        -- rewrite One. change (10 ^ (Z.of_nat 1 - 1)) with 1. lia.
        -- pose proof (Z.div_mod n 10 ltac:(lia)). lia.
Qed.

Lemma natural_toString_numeral n :
  0 <= n ->
  all_digits (natural_toString n) = true
  /\ natural_toString n <> EmptyString
  /\ value (natural_toString n) = n
  /\ (String.length (natural_toString n) = 1%nat
      \/ 10 ^ (Z.of_nat (String.length (natural_toString n)) - 1) <= n).
Proof.
  intros N. unfold natural_toString.
  assert (B : 0 <= n < 10 ^ Z.of_nat (S (Z.to_nat (Z.log2 n)))).
  { split; [exact N |].
    rewrite Nat2Z.inj_succ, Z2Nat.id by apply Z.log2_nonneg.
    destruct (Z.eq_dec n 0) as [-> | P]; [reflexivity |].
    destruct (Z.log2_spec n ltac:(lia)) as [_ U].
    eapply Z.lt_le_trans; [exact U |].
    apply Z.pow_le_mono_l. pose proof (Z.log2_nonneg n). lia. }
  destruct (digits_onto_numeral _ n EmptyString B) as (ds & E & A & Ne & V & L).
  rewrite E, append_empty_r. auto.
Qed.

(** [BigInt(n.toString())] is [n] *)
Lemma BigInt_toString n : BigInt (bigint_toString n) = Ok n.
Proof.
  unfold bigint_toString. destruct (Z.ltb_spec n 0) as [L | G].
  - destruct (natural_toString_numeral (- n) ltac:(lia)) as (A & N & V & _).
    rewrite (BigInt_digits true _ A N), V. f_equal. lia.
  - destruct (natural_toString_numeral n G) as (A & N & V & _).
    rewrite (BigInt_digits false _ A N), V. reflexivity.
Qed.

End RenderingFacts.

(** ** Decimal parser: the value of a literal, and the round trip *)

Section LiteralFacts.

Import JsString Decimal.

Lemma test_append class s1 s2 :
  test class (s1 ++ s2) = test class s1 || test class s2.
Proof.
  induction s1 as [| c s1 IH]; [reflexivity |].
  cbn. rewrite IH, orb_assoc. reflexivity.
Qed.

Lemma test_digits class s :
  (forall c, is_digit c = true -> class c = false) ->
  all_digits s = true -> test class s = false.
Proof.
  intros C. induction s as [| c s IH]; [reflexivity |].
  rewrite all_digits_cons. intros A. apply andb_prop in A. destruct A as [D A].
  cbn. rewrite (C c D), (IH A). reflexivity.
Qed.

Lemma digit_not_exponent c : is_digit c = true -> is_exponent_mark c = false.
Proof.
  destruct c as [[] [] [] [] [] [] [] []]; cbn; (discriminate || reflexivity).
Qed.

Lemma digit_not_outside c :
  is_digit c = true -> is_outside_decimal_class c = false.
Proof.
  destruct c as [[] [] [] [] [] [] [] []]; cbn; (discriminate || reflexivity).
Qed.

Lemma digit_not_point c : is_digit c = true -> Ascii.eqb c "." = false.
Proof.
  destruct c as [[] [] [] [] [] [] [] []]; cbn; (discriminate || reflexivity).
Qed.

Lemma test_is_digit s :
  all_digits s = true -> s <> EmptyString -> test is_digit s = true.
Proof.
  destruct s as [| c s]; [contradiction |].
  rewrite all_digits_cons. intros A _. apply andb_prop in A. destruct A as [D _].
  cbn. rewrite D. reflexivity.
Qed.

Lemma split_digits s : all_digits s = true -> split "." s = [s].
Proof.
  induction s as [| c s IH]; [reflexivity |].
  rewrite all_digits_cons. intros A. apply andb_prop in A. destruct A as [D A].
  cbn [split]. rewrite (digit_not_point c D), (IH A). reflexivity.
Qed.

Lemma split_at_point i f :
  all_digits i = true ->
  split "." (i ++ String "." f) = i :: split "." f.
Proof.
  induction i as [| c i IH]; [reflexivity |].
  rewrite all_digits_cons. intros A. apply andb_prop in A. destruct A as [D A].
  cbn [String.append split]. rewrite (digit_not_point c D), (IH A). reflexivity.
Qed.

(** the sign in front of the integer digits stays in the first part *)
Lemma split_signed (negative : bool) rest :
  split "." (if negative then String "-" rest else rest)
  = match split "." rest with
    | [] => []
    | part :: parts => (if negative then String "-" part else part) :: parts
    end.
Proof.
  destruct negative; cbn [split].
  - change (Ascii.eqb "-" ".") with false. cbn iota.
    destruct (split "." rest) eqn:E; [| reflexivity].
    exfalso. exact (split_nonempty _ _ E).
  - destruct (split "." rest) eqn:E; [| reflexivity].
    exfalso. exact (split_nonempty _ _ E).
Qed.

Lemma test_signed class (negative : bool) rest :
  class "-"%char = false ->
  test class (if negative then String "-" rest else rest) = test class rest.
Proof. intros C. destruct negative; cbn; [rewrite C |]; reflexivity. Qed.

Variables (negative : bool) (i f : string) (currency : Currency).
Hypothesis i_digits : all_digits i = true.
Hypothesis f_digits : all_digits f = true.

(** digits, a point, digits *)
Lemma parseToMinor_with_point :
  i <> EmptyString \/ f <> EmptyString ->
  (String.length f <= decimals currency)%nat ->
  Parser.parseToMinor
    (if negative then String "-" (i ++ String "." f) else (i ++ String "." f)%string)
    currency
  = Ok ((if negative then -1 else 1)
        * (value i * 10 ^ Z.of_nat (decimals currency)
           + value f * 10 ^ Z.of_nat (decimals currency - String.length f))).
Proof.
  intros N L. unfold Parser.parseToMinor, throw_if.
  rewrite !test_signed by reflexivity.
  rewrite !test_append. cbn [test].
  rewrite (test_digits is_exponent_mark i digit_not_exponent i_digits),
    (test_digits is_exponent_mark f digit_not_exponent f_digits),
    (test_digits is_outside_decimal_class i digit_not_outside i_digits),
    (test_digits is_outside_decimal_class f digit_not_outside f_digits).
  change (is_exponent_mark ".") with false.
  change (is_outside_decimal_class ".") with false.
  change (is_digit ".") with false. cbn [orb bind].
  assert (D : test is_digit i || test is_digit f = true).
  { destruct N as [N | N];
      [rewrite (test_is_digit i i_digits N); reflexivity
      | rewrite (test_is_digit f f_digits N); apply orb_true_r]. }
  rewrite D. cbn [negb bind].
  rewrite split_signed, split_at_point, split_digits by assumption.
  cbn [List.length]. change (2 <? 2)%nat with false. cbn [bind].
  unfold part_or_empty. cbn [nth].
  destruct (Nat.ltb_spec (decimals currency) (String.length f)) as [G | _]; [lia |].
  cbn [bind]. unfold padEnd.
  set (zeros := repeat_char "0" (decimals currency - String.length f)).
  replace ((if negative then String "-" i else i) ++ f ++ zeros)%string
    with (if negative then String "-" (i ++ f ++ zeros) else (i ++ f ++ zeros)%string)
    by (destruct negative; reflexivity).
  rewrite BigInt_digits.
  - f_equal. rewrite !value_append. unfold zeros.
    rewrite value_zeros, length_append, length_zeros.
    replace (Z.of_nat (String.length f + (decimals currency - String.length f)))
      with (Z.of_nat (decimals currency)) by lia.
    destruct negative; lia.
  - rewrite !all_digits_app, i_digits, f_digits. apply all_digits_zeros.
  - destruct N as [N | N]; [destruct i | destruct i; [destruct f |]];
      (contradiction || discriminate).
Qed.

(** digits only *)
Lemma parseToMinor_without_point :
  i <> EmptyString ->
  Parser.parseToMinor (if negative then String "-" i else i) currency
  = Ok ((if negative then -1 else 1)
        * (value i * 10 ^ Z.of_nat (decimals currency))).
Proof.
  intros N. unfold Parser.parseToMinor, throw_if.
  rewrite !test_signed by reflexivity.
  rewrite (test_digits is_exponent_mark i digit_not_exponent i_digits),
    (test_digits is_outside_decimal_class i digit_not_outside i_digits).
  rewrite test_is_digit by assumption. cbn [negb bind].
  rewrite split_signed, split_digits by assumption.
  cbn [List.length]. change (2 <? 1)%nat with false. cbn [bind].
  unfold part_or_empty. cbn [nth String.length].
  change (decimals currency <? 0)%nat with false. cbn [bind].
  unfold padEnd. cbn [String.append String.length]. rewrite Nat.sub_0_r.
  set (zeros := repeat_char "0" (decimals currency)).
  replace ((if negative then String "-" i else i) ++ zeros)%string
    with (if negative then String "-" (i ++ zeros) else (i ++ zeros)%string)
    by (destruct negative; reflexivity).
  rewrite BigInt_digits.
  - f_equal. rewrite value_append. unfold zeros.
    rewrite value_zeros, length_zeros. destruct negative; lia.
  - rewrite all_digits_app, i_digits. apply all_digits_zeros.
  - destruct i; [contradiction | discriminate].
Qed.

End LiteralFacts.

(** X13: a literal made of an optional minus sign, integer digits, a point and
    at most [decimals] fraction digits (one of the two digit groups may be
    empty) parses to the signed number of minor units it denotes; without
    the point, integer digits alone do. *)
Theorem parseToMinor_value (negative : bool) (i f : string) (currency : Currency) :
  Decimal.all_digits i = true ->
  Decimal.all_digits f = true ->
  i <> EmptyString \/ f <> EmptyString ->
  (String.length f <= decimals currency)%nat ->
  Parser.parseToMinor
    (if negative then String "-" (i ++ String "." f) else (i ++ String "." f)%string)
    currency
  = Ok ((if negative then -1 else 1)
        * (Decimal.value i * 10 ^ Z.of_nat (decimals currency)
           + Decimal.value f * 10 ^ Z.of_nat (decimals currency - String.length f)))
  /\ (i <> EmptyString ->
      Parser.parseToMinor (if negative then String "-" i else i) currency
      = Ok ((if negative then -1 else 1)
            * (Decimal.value i * 10 ^ Z.of_nat (decimals currency)))).
Proof.
  intros I F N L. split.
  - apply parseToMinor_with_point; assumption.
  - apply parseToMinor_without_point. exact I.
Qed.

Lemma parseToMinor_value_witness :
  Parser.parseToMinor "-12.5" (mkCurrency "USD" 2 "$" None) = Ok (- 1250).
Proof.
  apply (parseToMinor_value true "12" "5" (mkCurrency "USD" 2 "$" None));
    [reflexivity | reflexivity | left; discriminate | cbn; lia].
Defined.

Lemma bigint_toString_natural n :
  0 <= n -> JsString.bigint_toString n = JsString.natural_toString n.
Proof.
  intros N. unfold JsString.bigint_toString.
  destruct (Z.ltb_spec n 0); [lia | reflexivity].
Qed.

(** the fraction digits of [toDecimalString]: exactly [decimals] digits
    that denote the remainder *)
Lemma padded_fraction fraction decimals :
  0 <= fraction < 10 ^ Z.of_nat decimals -> (0 < decimals)%nat ->
  let padded :=
    JsString.padStart (JsString.bigint_toString fraction) decimals "0" in
  Decimal.all_digits padded = true
  /\ String.length padded = decimals
  /\ Decimal.value padded = fraction.
Proof.
  intros B P padded. subst padded.
  rewrite bigint_toString_natural by lia.
  destruct (natural_toString_numeral fraction ltac:(lia)) as (A & N & V & Lead).
  set (ds := JsString.natural_toString fraction) in *.
  assert (Len : (String.length ds <= decimals)%nat).
  { destruct Lead as [One | Lead]; [lia |].
    assert (Z.of_nat (String.length ds) - 1 < Z.of_nat decimals); [| lia].
    apply (Z.pow_lt_mono_r_iff 10); lia. }
  unfold JsString.padStart. repeat split.
  - rewrite all_digits_app, all_digits_zeros, A. reflexivity.
  - rewrite length_append, length_zeros. lia.
  - rewrite value_append, value_zeros, V. lia.
Qed.

(** X14: [toDecimalString] always returns a literal that [parseToMinor] and
    [Money.fromMajor] read back, for the same currency, as the value it
    came from. *)
Theorem toDecimalString_round_trip (m : Money.Money) :
  exists literal,
    Money.toDecimalString m = Ok literal
    /\ Parser.parseToMinor literal (Money.currency m) = Ok (Money.minor m)
    /\ Money.fromMajor literal (Money.currency m) = Ok m.
Proof.
  enough (G : exists literal,
             Money.toDecimalString m = Ok literal
             /\ Parser.parseToMinor literal (Money.currency m)
                = Ok (Money.minor m)).
  { destruct G as (literal & T & P). exists literal.
    repeat split; [exact T | exact P |].
    unfold Money.fromMajor. rewrite P. destruct m. reflexivity. }
  unfold Money.toDecimalString.
  set (negative := Money.minor m <? 0).
  set (absMinor := if negative then - Money.minor m else Money.minor m).
  assert (Abs : 0 <= absMinor
                /\ Money.minor m = (if negative then -1 else 1) * absMinor).
  { unfold absMinor, negative. destruct (Z.ltb_spec (Money.minor m) 0); lia. }
  destruct Abs as [Pos Sign].
  set (d := decimals (Money.currency m)).
  destruct (Nat.eqb_spec d 0) as [Z0 | NZ].
  - eexists. split; [reflexivity |].
    rewrite bigint_toString_natural by exact Pos.
    destruct (natural_toString_numeral absMinor Pos) as (A & N & V & _).
    rewrite (parseToMinor_without_point negative _ (Money.currency m) A N).
    fold d. rewrite V, Z0, Sign. f_equal. cbn. lia.
  - assert (Dpos : 0 < 10 ^ Z.of_nat d) by (apply Z.pow_pos_nonneg; lia).
    rewrite bigint_div_nonzero, bigint_rem_nonzero by lia. cbn [bind].
    set (q := Z.quot absMinor (10 ^ Z.of_nat d)).
    set (r := Z.rem absMinor (10 ^ Z.of_nat d)).
    assert (Q : 0 <= q) by (apply Z.quot_pos; lia).
    assert (R : 0 <= r < 10 ^ Z.of_nat d) by (apply Z.rem_bound_pos; lia).
    pose proof (Z.quot_rem' absMinor (10 ^ Z.of_nat d)) as QR. fold q r in QR.
    destruct (padded_fraction r d R ltac:(lia)) as (Af & Lf & Vf).
    rewrite (bigint_toString_natural q Q).
    destruct (natural_toString_numeral q Q) as (Ai & Ni & Vi & _).
    eexists. split; [reflexivity |].
    change (JsString.natural_toString q ++ "."
            ++ JsString.padStart (JsString.bigint_toString r) d "0")%string
      with (JsString.natural_toString q
            ++ String "." (JsString.padStart (JsString.bigint_toString r) d "0"))%string.
    rewrite (parseToMinor_with_point negative _ _ (Money.currency m) Ai Af)
      by (auto || (fold d; lia)).
    fold d. rewrite Vi, Vf, Lf, Nat.sub_diag, Sign. f_equal.
    change (10 ^ Z.of_nat 0) with 1. lia.
Qed.

(** ** Value object: sums, bounds, extremes *)

Section ValueFacts.

Import Money.

Lemma lessThan_same a b :
  code (currency a) = code (currency b) ->
  lessThan a (OfMoney b) = Ok (minor a <? minor b).
Proof.
  intros E. unfold lessThan. cbn [resolveOther bind].
  rewrite (assertSameCurrency_same a b E). reflexivity.
Qed.

Lemma greaterThan_same a b :
  code (currency a) = code (currency b) ->
  greaterThan a (OfMoney b) = Ok (minor a >? minor b).
Proof.
  intros E. unfold greaterThan. cbn [resolveOther bind].
  rewrite (assertSameCurrency_same a b E). reflexivity.
Qed.

Lemma min_step first current rest :
  code (currency first) = code (currency current) ->
  min (first :: current :: rest)
  = min ((if minor current <? minor first then current else first) :: rest).
Proof.
  intros E. cbn [min reduce_throwing].
  rewrite (assertSameCurrency_same first current E). cbn [bind].
  rewrite (lessThan_same current first (eq_sym E)). reflexivity.
Qed.

Lemma max_step first current rest :
  code (currency first) = code (currency current) ->
  max (first :: current :: rest)
  = max ((if minor current >? minor first then current else first) :: rest).
Proof.
  intros E. cbn [max reduce_throwing].
  rewrite (assertSameCurrency_same first current E). cbn [bind].
  rewrite (greaterThan_same current first (eq_sym E)). reflexivity.
Qed.

Lemma min_same_code rest :
  forall first,
    (forall v, In v rest -> code (currency v) = code (currency first)) ->
    exists least,
      min (first :: rest) = Ok least
      /\ In least (first :: rest)
      /\ forall v, In v (first :: rest) -> minor least <= minor v.
Proof.
  induction rest as [| current rest IH]; intros first C.
  - exists first. cbn. repeat split; auto. intros v [<- | []]. lia.
  - assert (E : code (currency first) = code (currency current))
      by (symmetry; apply C; left; reflexivity).
    rewrite (min_step first current rest E).
    set (best := if minor current <? minor first then current else first).
    assert (B : code (currency best) = code (currency first)
                /\ (best = current \/ best = first)
                /\ minor best <= minor first /\ minor best <= minor current).
    { unfold best. destruct (Z.ltb_spec (minor current) (minor first));
        repeat split; auto; lia. }
    destruct B as (Bc & Bi & B1 & B2).
    destruct (IH best) as (least & M & I & L).
    { intros v Iv. rewrite Bc. apply C. right. exact Iv. }
    exists least. split; [exact M |]. split.
    + destruct I as [<- | I]; [| right; right; exact I].
      destruct Bi as [-> | ->]; [right; left | left]; reflexivity.
    + pose proof (L best (or_introl eq_refl)) as Lb.
      intros v [<- | [<- | Iv]]; [lia | lia |].
      apply L. right. exact Iv.
Qed.

Lemma max_same_code rest :
  forall first,
    (forall v, In v rest -> code (currency v) = code (currency first)) ->
    exists greatest,
      max (first :: rest) = Ok greatest
      /\ In greatest (first :: rest)
      /\ forall v, In v (first :: rest) -> minor v <= minor greatest.
Proof.
  induction rest as [| current rest IH]; intros first C.
  - exists first. cbn. repeat split; auto. intros v [<- | []]. lia.
  - assert (E : code (currency first) = code (currency current))
      by (symmetry; apply C; left; reflexivity).
    rewrite (max_step first current rest E).
    set (best := if minor current >? minor first then current else first).
    assert (B : code (currency best) = code (currency first)
                /\ (best = current \/ best = first)
                /\ minor first <= minor best /\ minor current <= minor best).
    { unfold best. rewrite Z.gtb_ltb.
      destruct (Z.ltb_spec (minor first) (minor current));
        repeat split; auto; lia. }
    destruct B as (Bc & Bi & B1 & B2).
    destruct (IH best) as (greatest & M & I & L).
    { intros v Iv. rewrite Bc. apply C. right. exact Iv. }
    exists greatest. split; [exact M |]. split.
    + destruct I as [<- | I]; [| right; right; exact I].
      destruct Bi as [-> | ->]; [right; left | left]; reflexivity.
    + pose proof (L best (or_introl eq_refl)) as Lb.
      intros v [<- | [<- | Iv]]; [lia | lia |].
      apply L. right. exact Iv.
Qed.

(** a value whose currency code differs from the first one's stops [min]
    and [max] with a [CurrencyMismatchError] *)
Lemma min_max_mismatch rest :
  forall first,
    (exists v, In v rest /\ code (currency v) <> code (currency first)) ->
    (exists expected received,
        min (first :: rest) = Throw (CurrencyMismatchError expected received))
    /\ (exists expected received,
          max (first :: rest) = Throw (CurrencyMismatchError expected received)).
Proof.
  induction rest as [| current rest IH]; intros first (v & I & N); [destruct I |].
  destruct (String.eqb_spec (code (currency first)) (code (currency current)))
    as [E | D].
  - rewrite (min_step first current rest E), (max_step first current rest E).
    destruct I as [-> | I]; [congruence |].
    assert (Iv : forall best : Money,
               code (currency best) = code (currency first) ->
               exists v0, In v0 rest /\ code (currency v0) <> code (currency best)).
    { intros best Eb. exists v. split; [exact I | congruence]. }
    split.
    + apply (IH (if minor current <? minor first then current else first)).
      apply Iv. destruct (_ <? _); congruence.
    + apply (IH (if minor current >? minor first then current else first)).
      apply Iv. destruct (_ >? _); congruence.
  - cbn [min max reduce_throwing].
    rewrite (assertSameCurrency_differ first current D). cbn [bind].
    split; eauto.
Qed.

End ValueFacts.

(** X15: [Money.min] of a non-empty list of one currency code returns a member
    of the list that no member is below; an empty list raises a plain
    [Error] and a member of another code a [CurrencyMismatchError]. *)
Theorem min_least (first : Money.Money) (rest : list Money.Money) :
  Money.min [] = Throw (Error "At least one Money value required")
  /\ ((forall v, In v rest ->
                code (Money.currency v) = code (Money.currency first)) ->
      exists least,
        Money.min (first :: rest) = Ok least
        /\ In least (first :: rest)
        /\ forall v, In v (first :: rest) -> Money.minor least <= Money.minor v)
  /\ ((exists v, In v rest
                 /\ code (Money.currency v) <> code (Money.currency first)) ->
      exists expected received,
        Money.min (first :: rest)
        = Throw (CurrencyMismatchError expected received)).
Proof.
  split; [reflexivity |]. split.
  - apply min_same_code.
  - intros M. apply (min_max_mismatch rest first M).
Qed.

Lemma min_least_witness :
  exists least,
    Money.min [Money.mkMoney 3 (mkCurrency "USD" 2 "$" None);
               Money.mkMoney 1 (mkCurrency "USD" 2 "$" None);
               Money.mkMoney 2 (mkCurrency "USD" 2 "$" None)] = Ok least
    /\ In least [Money.mkMoney 3 (mkCurrency "USD" 2 "$" None);
                 Money.mkMoney 1 (mkCurrency "USD" 2 "$" None);
                 Money.mkMoney 2 (mkCurrency "USD" 2 "$" None)]
    /\ forall v,
        In v [Money.mkMoney 3 (mkCurrency "USD" 2 "$" None);
              Money.mkMoney 1 (mkCurrency "USD" 2 "$" None);
              Money.mkMoney 2 (mkCurrency "USD" 2 "$" None)] ->
        Money.minor least <= Money.minor v.
Proof.
  apply (min_least (Money.mkMoney 3 (mkCurrency "USD" 2 "$" None))
           [Money.mkMoney 1 (mkCurrency "USD" 2 "$" None);
            Money.mkMoney 2 (mkCurrency "USD" 2 "$" None)]).
  intros v [<- | [<- | []]]; reflexivity.
Defined.

(** X16: [Money.max] of a non-empty list of one currency code returns a member
    of the list that no member is above; an empty list raises a plain
    [Error] and a member of another code a [CurrencyMismatchError]. *)
Theorem max_greatest (first : Money.Money) (rest : list Money.Money) :
  Money.max [] = Throw (Error "At least one Money value required")
  /\ ((forall v, In v rest ->
                code (Money.currency v) = code (Money.currency first)) ->
      exists greatest,
        Money.max (first :: rest) = Ok greatest
        /\ In greatest (first :: rest)
        /\ forall v, In v (first :: rest) ->
                     Money.minor v <= Money.minor greatest)
  /\ ((exists v, In v rest
                 /\ code (Money.currency v) <> code (Money.currency first)) ->
      exists expected received,
        Money.max (first :: rest)
        = Throw (CurrencyMismatchError expected received)).
Proof.
  split; [reflexivity |]. split.
  - apply max_same_code.
  - intros M. apply (min_max_mismatch rest first M).
Qed.

Lemma max_greatest_witness :
  exists expected received,
    Money.max [Money.mkMoney 3 (mkCurrency "USD" 2 "$" None);
               Money.mkMoney 1 (mkCurrency "EUR" 2 "E" None)]
    = Throw (CurrencyMismatchError expected received).
Proof.
  apply (max_greatest (Money.mkMoney 3 (mkCurrency "USD" 2 "$" None))
           [Money.mkMoney 1 (mkCurrency "EUR" 2 "E" None)]).
  eexists. split; [left; reflexivity | cbn; discriminate].
Defined.

(** X17: [clamp] between bounds of the same currency code: with ordered bounds
    the result keeps the currency of [this] and its amount is the amount of
    [this] brought into the bounds; with [min] above [max] a plain [Error]
    is raised. *)
Theorem clamp_within_bounds (this lower upper : Money.Money) :
  code (Money.currency this) = code (Money.currency lower) ->
  code (Money.currency this) = code (Money.currency upper) ->
  (Money.minor lower <= Money.minor upper ->
   exists clamped,
     Money.clamp this lower upper = Ok clamped
     /\ Money.currency clamped = Money.currency this
     /\ Money.minor clamped
        = Z.max (Money.minor lower) (Z.min (Money.minor this) (Money.minor upper))
     /\ Money.minor lower <= Money.minor clamped <= Money.minor upper
     /\ (Money.minor lower <= Money.minor this <= Money.minor upper ->
         clamped = this))
  /\ (Money.minor upper < Money.minor lower ->
      Money.clamp this lower upper
      = Throw (Error "Clamp min cannot be greater than max")).
Proof.
  intros El Eu.
  assert (Elu : code (Money.currency lower) = code (Money.currency upper))
    by congruence.
  unfold Money.clamp.
  rewrite (assertSameCurrency_same this lower El),
    (assertSameCurrency_same this upper Eu). cbn [bind].
  rewrite (greaterThan_same lower upper Elu), (lessThan_same this lower El),
    (greaterThan_same this upper Eu). cbn [bind].
  rewrite !Z.gtb_ltb. unfold throw_if.
  split; intros O.
  - destruct (Z.ltb_spec (Money.minor upper) (Money.minor lower)); [lia |].
    cbn [bind].
    destruct (Z.ltb_spec (Money.minor this) (Money.minor lower)).
    + eexists. split; [reflexivity |]. cbn. repeat split; lia.
    + cbn [bind].
      destruct (Z.ltb_spec (Money.minor upper) (Money.minor this)).
      * eexists. split; [reflexivity |]. cbn. repeat split; lia.
      * eexists. split; [reflexivity |]. repeat split; lia.
  - destruct (Z.ltb_spec (Money.minor upper) (Money.minor lower)); [| lia].
    reflexivity.
Qed.

Lemma clamp_within_bounds_witness :
  exists clamped,
    Money.clamp (Money.mkMoney 150 (mkCurrency "USD" 2 "$" None))
      (Money.mkMoney 50 (mkCurrency "USD" 2 "$" None))
      (Money.mkMoney 100 (mkCurrency "USD" 2 "$" None)) = Ok clamped
    /\ Money.currency clamped = mkCurrency "USD" 2 "$" None
    /\ Money.minor clamped = Z.max 50 (Z.min 150 100)
    /\ 50 <= Money.minor clamped <= 100
    /\ (50 <= 150 <= 100 ->
        clamped = Money.mkMoney 150 (mkCurrency "USD" 2 "$" None)).
Proof.
  apply (clamp_within_bounds (Money.mkMoney 150 (mkCurrency "USD" 2 "$" None))
           (Money.mkMoney 50 (mkCurrency "USD" 2 "$" None))
           (Money.mkMoney 100 (mkCurrency "USD" 2 "$" None)));
    [reflexivity | reflexivity | cbn; lia].
Defined.

(** X18: between values of one currency code [add] then [subtract] of the same
    value gives the first value back, and the sum keeps the currency of
    [this]; between different codes both raise [CurrencyMismatchError]. *)
Theorem add_subtract_inverse (this other : Money.Money) :
  (code (Money.currency this) = code (Money.currency other) ->
   exists sum,
     Money.add this (Money.OfMoney other) = Ok sum
     /\ Money.minor sum = Money.minor this + Money.minor other
     /\ Money.currency sum = Money.currency this
     /\ Money.subtract sum (Money.OfMoney other) = Ok this)
  /\ (code (Money.currency this) <> code (Money.currency other) ->
      Money.add this (Money.OfMoney other)
      = Throw (CurrencyMismatchError (code (Money.currency this))
                 (code (Money.currency other)))
      /\ Money.subtract this (Money.OfMoney other)
         = Throw (CurrencyMismatchError (code (Money.currency this))
                    (code (Money.currency other)))).
Proof.
  split.
  - intros E. unfold Money.add, Money.subtract. cbn [Money.resolveOther bind].
    rewrite (assertSameCurrency_same this other E). cbn [bind].
    eexists. split; [reflexivity |]. cbn [Money.minor Money.currency].
    repeat split.
    rewrite (assertSameCurrency_same _ other) by exact E. cbn [bind].
    unfold Arithmetic.add, Arithmetic.subtract. destruct this as [a c]. cbn.
    do 2 f_equal. lia.
  - intros N. unfold Money.add, Money.subtract. cbn [Money.resolveOther bind].
    rewrite (assertSameCurrency_differ this other N). split; reflexivity.
Qed.

Lemma add_subtract_inverse_witness :
  exists sum,
    Money.add (Money.mkMoney 1050 (mkCurrency "USD" 2 "$" None))
      (Money.OfMoney (Money.mkMoney (-51) (mkCurrency "USD" 2 "$" None))) = Ok sum
    /\ Money.minor sum = 1050 + -51
    /\ Money.currency sum = mkCurrency "USD" 2 "$" None
    /\ Money.subtract sum
         (Money.OfMoney (Money.mkMoney (-51) (mkCurrency "USD" 2 "$" None)))
       = Ok (Money.mkMoney 1050 (mkCurrency "USD" 2 "$" None)).
Proof.
  apply (add_subtract_inverse (Money.mkMoney 1050 (mkCurrency "USD" 2 "$" None))
           (Money.mkMoney (-51) (mkCurrency "USD" 2 "$" None))).
  reflexivity.
Defined.

(** ** Wallet *)

Section MapFacts.

Context {V : Type}.

Lemma get_set_same (m : JsMap.t V) key value :
  JsMap.get (JsMap.set m key value) key = Some value.
Proof.
  induction m as [| [k v] m IH]; cbn.
  - rewrite String.eqb_refl. reflexivity.
  - destruct (String.eqb_spec k key) as [-> | N]; cbn.
    + rewrite String.eqb_refl. reflexivity.
    + destruct (String.eqb_spec k key); [contradiction | exact IH].
Qed.

Lemma get_set_other (m : JsMap.t V) key value other :
  key <> other ->
  JsMap.get (JsMap.set m key value) other = JsMap.get m other.
Proof.
  intros N. induction m as [| [k v] m IH]; cbn.
  - destruct (String.eqb_spec key other); [contradiction | reflexivity].
  - destruct (String.eqb_spec k key) as [-> | Nk]; cbn.
    + destruct (String.eqb_spec key other); [contradiction | reflexivity].
    + destruct (String.eqb_spec k other); [reflexivity | exact IH].
Qed.

Lemma get_none_keys (m : JsMap.t V) key :
  JsMap.get m key = None <-> ~ In key (JsMap.keys m).
Proof.
  induction m as [| [k v] m IH]; cbn; [tauto |].
  destruct (String.eqb_spec k key) as [-> | N].
  - split; [discriminate | intros H; exfalso; apply H; left; reflexivity].
  - rewrite IH. tauto.
Qed.

Lemma get_in (m : JsMap.t V) key value :
  JsMap.get m key = Some value -> In (key, value) m.
Proof.
  induction m as [| [k v] m IH]; cbn; [discriminate |].
  destruct (String.eqb_spec k key) as [-> | N].
  - intros [= ->]. left. reflexivity.
  - intros G. right. apply IH, G.
Qed.

(** [set] on a present key keeps the keys, on an absent key it appends *)
Lemma keys_set (m : JsMap.t V) key value :
  JsMap.keys (JsMap.set m key value)
  = match JsMap.get m key with
    | Some _ => JsMap.keys m
    | None => JsMap.keys m ++ [key]
    end.
Proof.
  induction m as [| [k v] m IH]; cbn; [reflexivity |].
  destruct (String.eqb_spec k key) as [-> | N]; cbn; [reflexivity |].
  unfold JsMap.keys in IH. rewrite IH.
  destruct (JsMap.get m key); reflexivity.
Qed.

Lemma set_entries (P : string * V -> Prop) (m : JsMap.t V) key value :
  Forall P m -> P (key, value) -> Forall P (JsMap.set m key value).
Proof.
  intros F Pk. induction F as [| [k v] m Pkv F IH]; cbn.
  - constructor; [exact Pk | constructor].
  - destruct (String.eqb_spec k key) as [-> | N];
      constructor; assumption.
Qed.

End MapFacts.

Section WalletFacts.

Import Money Wallet.

Lemma well_keyed_get contents key money :
  well_keyed contents -> JsMap.get contents key = Some money ->
  code (currency money) = key.
Proof.
  intros [_ F] G. rewrite Forall_forall in F.
  exact (F _ (get_in _ _ _ G)).
Qed.

Lemma well_keyed_set contents money :
  well_keyed contents ->
  well_keyed (JsMap.set contents (code (currency money)) money).
Proof.
  intros [N F]. split.
  - rewrite keys_set. destruct (JsMap.get contents _) eqn:G; [exact N |].
    apply get_none_keys in G.
    apply (Permutation_NoDup (l := code (currency money) :: JsMap.keys contents)).
    + apply Permutation_cons_append.
    + constructor; assumption.
  - apply set_entries; [exact F | reflexivity].
Qed.

Lemma balance_set contents key money other :
  balance (JsMap.set contents key money) other
  = if String.eqb key other then minor money else balance contents other.
Proof.
  unfold balance. destruct (String.eqb_spec key other) as [<- | N].
  - rewrite get_set_same. reflexivity.
  - rewrite get_set_other by exact N. reflexivity.
Qed.

(** one [add] on a well-keyed bag *)
Lemma add_step contents money :
  well_keyed contents ->
  exists contents',
    MoneyBag.add contents money = Ok contents'
    /\ well_keyed contents'
    /\ forall other,
        balance contents' other
        = balance contents other
          + (if String.eqb (code (currency money)) other then minor money else 0).
Proof.
  intros W. unfold MoneyBag.add.
  destruct (JsMap.get contents (code (currency money))) as [existing |] eqn:G.
  - pose proof (well_keyed_get _ _ _ W G) as E.
    unfold Money.add. cbn [resolveOther bind].
    rewrite (assertSameCurrency_same existing money E). cbn [bind].
    eexists. split; [reflexivity |]. split.
    + rewrite <- E at 1. apply (well_keyed_set contents (mkMoney _ _) W).
    + intros other. rewrite balance_set. cbn [minor]. unfold Arithmetic.add.
      destruct (String.eqb_spec (code (currency money)) other) as [<- | N]; [| lia].
      unfold balance. rewrite G. reflexivity.
  - eexists. split; [reflexivity |]. split; [apply well_keyed_set, W |].
    intros other. rewrite balance_set.
    destruct (String.eqb_spec (code (currency money)) other) as [<- | N]; [| lia].
    unfold balance. rewrite G. lia.
Qed.

(** one [subtract] on a well-keyed bag *)
Lemma subtract_step contents money :
  well_keyed contents ->
  exists contents',
    MoneyBag.subtract contents money = Ok contents'
    /\ well_keyed contents'
    /\ forall other,
        balance contents' other
        = balance contents other
          + (if String.eqb (code (currency money)) other then - minor money else 0).
Proof.
  intros W. unfold MoneyBag.subtract.
  destruct (JsMap.get contents (code (currency money))) as [existing |] eqn:G.
  - pose proof (well_keyed_get _ _ _ W G) as E.
    unfold Money.subtract. cbn [resolveOther bind].
    rewrite (assertSameCurrency_same existing money E). cbn [bind].
    eexists. split; [reflexivity |]. split.
    + rewrite <- E at 1. apply (well_keyed_set contents (mkMoney _ _) W).
    + intros other. rewrite balance_set. cbn [minor]. unfold Arithmetic.subtract.
      destruct (String.eqb_spec (code (currency money)) other) as [<- | N]; [| lia].
      unfold balance. rewrite G. lia.
  - unfold Money.subtract, zero. cbn [resolveOther bind].
    rewrite assertSameCurrency_same by reflexivity. cbn [bind].
    eexists. split; [reflexivity |]. split.
    + apply (well_keyed_set contents (mkMoney _ (currency money)) W).
    + intros other. rewrite balance_set. cbn [minor]. unfold Arithmetic.subtract.
      destruct (String.eqb_spec (code (currency money)) other) as [<- | N]; [| lia].
      unfold balance. rewrite G. lia.
Qed.

Lemma run_well_keyed operations :
  forall contents,
    well_keyed contents ->
    exists contents',
      run operations contents = Ok contents'
      /\ well_keyed contents'
      /\ forall other,
          balance contents' other = balance contents other + net operations other.
Proof.
  induction operations as [| [money | money] operations IH]; intros contents W.
  - exists contents. cbn. repeat split; [exact (proj1 W) | exact (proj2 W) |].
    intros other. lia.
  - destruct (add_step contents money W) as (c1 & A & W1 & B1).
    destruct (IH c1 W1) as (c2 & R & W2 & B2).
    exists c2. cbn [run net]. rewrite A. cbn [bind].
    repeat split; [exact R | exact (proj1 W2) | exact (proj2 W2) |].
    intros other. rewrite B2, B1. lia.
  - destruct (subtract_step contents money W) as (c1 & A & W1 & B1).
    destruct (IH c1 W1) as (c2 & R & W2 & B2).
    exists c2. cbn [run net]. rewrite A. cbn [bind].
    repeat split; [exact R | exact (proj1 W2) | exact (proj2 W2) |].
    intros other. rewrite B2, B1. lia.
Qed.


End WalletFacts.


(** X22: after any sequence of [add] and [subtract] calls on the empty bag,
    [get] with a currency object returns that currency's deposits minus its
    withdrawals, counted by currency code; for a code never used it
    returns zero in the given currency. *)
Theorem wallet_balance (operations : list Wallet.operation)
  (registry : Registry.t) (currency : Currency) :
  exists contents money,
    Wallet.run operations JsMap.empty = Ok contents
    /\ MoneyBag.get registry contents (inr currency) = Ok money
    /\ Money.minor money = Wallet.net operations (code currency)
    /\ code (Money.currency money) = code currency.
Proof.
  assert (W : Wallet.well_keyed JsMap.empty) by (split; constructor).
  destruct (run_well_keyed operations JsMap.empty W) as (contents & R & W' & B).
  specialize (B (code currency)). unfold Wallet.balance in B. cbn [JsMap.get JsMap.empty] in B.
  exists contents. unfold MoneyBag.get.
  destruct (JsMap.get contents (code currency)) as [money |] eqn:G.
  - exists money. repeat split; [exact R | lia |].
    exact (well_keyed_get _ _ _ W' G).
  - eexists. cbn [Money.resolveCurrency bind].
    repeat split; [exact R | cbn; lia].
Qed.

(** ** Allocation engine: outcomes and equal splits *)

Lemma scaleRatio_errors r e :
  Allocation.scaleRatio r = Throw e ->
  e = Error "Scientific notation not supported" \/ e = SyntaxError.
Proof.
  unfold Allocation.scaleRatio, throw_if.
  destruct (JsString.test _ _); cbn [bind]; [intros [= <-]; auto |].
  destruct (BigInt_outcomes
              (nth 0 (JsString.split "." r) "" ++
               JsString.part_or_empty (JsString.split "." r) 1)%string)
    as [[v ->] | ->]; cbn [bind]; [discriminate | intros [= <-]; auto].
Qed.

Lemma map_scaleRatio_errors ratios e :
  Allocation.map_throwing Allocation.scaleRatio ratios = Throw e ->
  e = Error "Scientific notation not supported" \/ e = SyntaxError.
Proof.
  induction ratios as [| r ratios IH]; cbn; [discriminate |].
  destruct (Allocation.scaleRatio r) eqn:S; cbn [bind].
  - destruct (Allocation.map_throwing Allocation.scaleRatio ratios);
      cbn [bind]; [discriminate |].
    intros [= <-]. apply IH. reflexivity.
  - intros [= <-]. exact (scaleRatio_errors r _ S).
Qed.

(** X3: [allocate] returns as many parts as there are ratios, or raises one of
    its three plain [Error]s or the [SyntaxError] of [BigInt]; whatever the
    amount and the ratios, the unit loop never reads past the array
    ([TypeError]) and no division by zero ([RangeError]) is reached. *)
Theorem allocate_outcomes (amount : Z) (ratios : list string) :
  (exists parts,
     Allocation.allocate amount ratios = Ok parts
     /\ List.length parts = List.length ratios)
  \/ Allocation.allocate amount ratios
     = Throw (Error "Cannot allocate to empty ratios")
  \/ Allocation.allocate amount ratios
     = Throw (Error "Scientific notation not supported")
  \/ Allocation.allocate amount ratios = Throw SyntaxError
  \/ Allocation.allocate amount ratios
     = Throw (Error "Total ratio must be greater than zero").
Proof.
  destruct ratios as [| r0 rs] eqn:Er; [right; left; reflexivity |].
  rewrite <- Er. assert (N : ratios <> []) by (rewrite Er; discriminate).
  clear Er r0 rs.
  destruct (Allocation.map_throwing Allocation.scaleRatio ratios)
    as [scaledRatios | e] eqn:S.
  - destruct (Z.eq_dec (Allocation.sum_of (Allocation.normalize scaledRatios)) 0)
      as [Z0 | T].
    + do 4 right. unfold Allocation.allocate, throw_if.
      destruct ratios; [contradiction |]. cbn [List.length Nat.eqb bind].
      rewrite S. cbn [bind]. rewrite Z0. reflexivity.
    + left. destruct (allocate_total amount ratios scaledRatios N S T)
        as (parts & A & L & _).
      exists parts. split; assumption.
  - assert (A : Allocation.allocate amount ratios = Throw e).
    { unfold Allocation.allocate, throw_if.
      destruct ratios; [contradiction |]. cbn [List.length Nat.eqb bind].
      rewrite S. reflexivity. }
    rewrite A. destruct (map_scaleRatio_errors ratios e S) as [-> | ->]; auto.
Qed.

(** [allocate] as the largest-remainder rule, for use below *)
Lemma allocate_distribute amount ratios scaledRatios :
  ratios <> [] ->
  Allocation.map_throwing Allocation.scaleRatio ratios = Ok scaledRatios ->
  let normalizedRatios := Allocation.normalize scaledRatios in
  let total := Allocation.sum_of normalizedRatios in
  total <> 0 ->
  let shares := map (fun w => Z.quot (amount * w) total) normalizedRatios in
  let remainders := map (fun w => Z.rem (amount * w) total) normalizedRatios in
  Allocation.allocate amount ratios
  = Ok (LargestRemainder.distribute shares remainders
          (amount - Allocation.sum_of shares)).
Proof.
  intros N P ws total T shares remainders.
  rewrite (allocate_pipeline amount ratios scaledRatios N P T).
  rewrite (allocate_entries amount scaledRatios).
  fold ws. fold total.
  set (results := AllocationModel.entries amount total 0 ws).
  set (leftover := amount - Allocation.sum_of shares).
  assert (L : amount - AllocationModel.total_of (map Allocation.share results)
              = leftover).
  { unfold leftover, shares, results.
    rewrite sum_of_total_of, entries_share. reflexivity. }
  rewrite L. unfold LargestRemainder.distribute.
  unfold shares at 2. rewrite length_map.
  rewrite <- (entries_index amount total ws 0). fold results.
  rewrite !map_map. f_equal. apply map_ext_in. intros e I.
  destruct (entries_in amount total ws e I) as (_ & Sh & _).
  fold shares in Sh. rewrite <- Sh.
  unfold results. rewrite (served_before_rank amount total ws e I).
  fold remainders.
  destruct (Nat.ltb_spec (LargestRemainder.rank remainders (Allocation.index e))
              (Z.to_nat leftover)),
    (Z.ltb_spec (Z.of_nat (LargestRemainder.rank remainders (Allocation.index e)))
       leftover); cbn [Allocation.share Allocation.add_unit]; lia.
Qed.

Section EqualSplit.

Import Allocation.

Lemma scale_ones n :
  map_throwing scaleRatio (repeat "1"%string n) = Ok (repeat (mkScaledRatio 1 0) n).
Proof.
  induction n as [| n IH]; [reflexivity |].
  cbn [repeat map_throwing].
  change (scaleRatio "1") with (Ok (mkScaledRatio 1 0)). cbn [bind].
  rewrite IH. reflexivity.
Qed.

Lemma normalize_ones n : normalize (repeat (mkScaledRatio 1 0) n) = repeat 1 n.
Proof.
  unfold normalize. rewrite !map_repeat. cbn [ratio_decimals value].
  replace (max_of (repeat 0%nat n)) with 0%nat
    by (induction n as [| n IH]; [reflexivity | cbn; exact IH]).
  reflexivity.
Qed.

Lemma sum_of_repeat x n : sum_of (repeat x n) = Z.of_nat n * x.
Proof.
  rewrite sum_of_total_of. unfold AllocationModel.total_of.
  induction n as [| n IH]; [reflexivity |].
  cbn [repeat fold_right]. rewrite IH. lia.
Qed.

Lemma nth_repeat_below {A : Type} (x d : A) n i :
  (i < n)%nat -> nth i (repeat x n) d = x.
Proof.
  revert i. induction n as [| n IH]; intros i L; [lia |].
  destruct i as [| i]; cbn; [reflexivity | apply IH; lia].
Qed.

Lemma count_below i n :
  List.length (filter (fun j => j <? i)%nat (seq 0 n)) = Nat.min i n.
Proof.
  induction n as [| n IH]; [rewrite Nat.min_0_r; reflexivity |].
  rewrite seq_S, filter_app, length_app, IH. cbn [Nat.add filter].
  destruct (Nat.ltb_spec n i); cbn [List.length]; lia.
Qed.

(** among equal remainders the rank of an index is the index itself *)
Lemma rank_equal_remainders r n i :
  (i < n)%nat -> LargestRemainder.rank (repeat r n) i = i.
Proof.
  intros L. unfold LargestRemainder.rank. rewrite repeat_length.
  rewrite (filter_ext_in _ (fun j => j <? i)%nat).
  - rewrite count_below. lia.
  - intros j I. apply in_seq in I. unfold LargestRemainder.precedes.
    rewrite !nth_repeat_below by lia.
    rewrite Z.ltb_irrefl, Z.eqb_refl. reflexivity.
Qed.

Lemma allocate_ones amount n :
  (0 < n)%nat ->
  allocate amount (repeat "1"%string n)
  = Ok (map (fun i =>
               Z.quot amount (Z.of_nat n)
               + (if Z.of_nat i <? Z.rem amount (Z.of_nat n) then 1 else 0))
          (seq 0 n)).
Proof.
  intros P.
  assert (N : repeat "1"%string n <> []) by (destruct n; [lia | discriminate]).
  pose proof (allocate_distribute amount _ _ N (scale_ones n)) as A.
  cbn zeta in A. rewrite normalize_ones, sum_of_repeat, Z.mul_1_r in A.
  rewrite A by lia. clear A. rewrite !map_repeat, sum_of_repeat.
  rewrite !Z.mul_1_r.
  unfold LargestRemainder.distribute. rewrite repeat_length.
  f_equal. apply map_ext_in. intros i I. apply in_seq in I.
  rewrite nth_repeat_below, rank_equal_remainders by lia.
  pose proof (Z.quot_rem' amount (Z.of_nat n)) as QR.
  replace (amount - Z.of_nat n * Z.quot amount (Z.of_nat n))
    with (Z.rem amount (Z.of_nat n)) by lia.
  reflexivity.
Qed.

End EqualSplit.

(** X6: [split] into [parts] >= 1 gives every part the truncated quotient of
    the amount by [parts], and one unit more to the first [amount % parts]
    parts; [split(0)] raises the empty-ratios [Error]. *)
Theorem split_equal_parts (this : Money.Money) (parts : nat) :
  Money.split this 0 = Throw (Error "Cannot allocate to empty ratios")
  /\ ((0 < parts)%nat ->
      Money.split this parts
      = Ok (map (fun i =>
                   Money.mkMoney
                     (Z.quot (Money.minor this) (Z.of_nat parts)
                      + (if Z.of_nat i <? Z.rem (Money.minor this) (Z.of_nat parts)
                         then 1 else 0))
                     (Money.currency this))
              (seq 0 parts))).
Proof.
  split; [reflexivity |]. intros P.
  unfold Money.split, Money.allocate.
  rewrite (allocate_ones (Money.minor this) parts P). cbn [bind].
  rewrite map_map. reflexivity.
Qed.

Lemma split_equal_parts_witness :
  Money.split (Money.mkMoney 10 (mkCurrency "JPY" 0 "Y" None)) 4
  = Ok (map (fun i =>
               Money.mkMoney
                 (Z.quot 10 4 + (if Z.of_nat i <? Z.rem 10 4 then 1 else 0))
                 (mkCurrency "JPY" 0 "Y" None))
          (seq 0 4)).
Proof.
  apply (split_equal_parts (Money.mkMoney 10 (mkCurrency "JPY" 0 "Y" None)) 4).
  lia.
Defined.

(** ** Serialization *)

(** X23: once the currency of a value is registered, [reviver] turns the JSON
    form of [toJSON] back into the same value, for every amount and every
    key; while no currency is registered under the code, it raises the
    registry's [Error]. *)
Theorem reviver_toJSON_round_trip (registry : Registry.t) (key : string)
  (m : Money.Money) :
  Money.reviver (Registry.registerCurrency registry (Money.currency m)) key
    (Money.json_of (Money.toJSON m))
  = Ok (Money.AsMoney m)
  /\ (Registry.isCurrencyRegistered registry (code (Money.currency m)) = false ->
      Money.reviver registry key (Money.json_of (Money.toJSON m))
      = Throw (Error ("Currency '" ++ code (Money.currency m)
                      ++ "' not found in registry.")%string)).
Proof.
  unfold Money.reviver, Money.json_of, Money.toJSON.
  cbn [Money.field Money.json_amount Money.json_currency Money.json_precision].
  change (String.eqb "amount" "amount") with true.
  change (String.eqb "amount" "currency") with false.
  change (String.eqb "currency" "currency") with true.
  change (String.eqb "amount" "precision") with false.
  change (String.eqb "currency" "precision") with false.
  change (String.eqb "precision" "precision") with true.
  cbn iota. rewrite BigInt_toString. cbn [bind Money.resolveCurrency].
  unfold Registry.getCurrency, Registry.registerCurrency,
    Registry.isCurrencyRegistered, JsMap.has.
  rewrite get_set_same. cbn [bind]. split.
  - destruct m. reflexivity.
  - destruct (JsMap.get registry (code (Money.currency m))); [discriminate |].
    reflexivity.
Qed.

Lemma reviver_toJSON_round_trip_witness :
  Money.reviver [] "price"
    (Money.json_of (Money.toJSON (Money.mkMoney (-1050) (mkCurrency "USD" 2 "$" None))))
  = Throw (Error "Currency 'USD' not found in registry.").
Proof.
  apply (reviver_toJSON_round_trip [] "price"
           (Money.mkMoney (-1050) (mkCurrency "USD" 2 "$" None))).
  reflexivity.
Defined.

(** ** Comparison as a sort order *)

(** X19: between values of one currency code [compare] is antisymmetric, is
    zero exactly when [equals] holds, and agrees with [lessThan] and
    [greaterThan]. *)
Theorem compare_consistent (this other : Money.Money) :
  code (Money.currency this) = code (Money.currency other) ->
  exists c,
    Money.compare this (Money.OfMoney other) = Ok c
    /\ Money.compare other (Money.OfMoney this) = Ok (- c)
    /\ (c = 0 <-> Money.equals this (Money.OfMoney other) = Ok true)
    /\ (c = -1 <-> Money.lessThan this (Money.OfMoney other) = Ok true)
    /\ (c = 1 <-> Money.greaterThan this (Money.OfMoney other) = Ok true).
Proof.
  intros E.
  rewrite (lessThan_same this other E), (greaterThan_same this other E).
  unfold Money.compare, Money.equals. cbn [Money.resolveOther bind].
  rewrite (assertSameCurrency_same this other E),
    (assertSameCurrency_same other this (eq_sym E)), E, String.eqb_refl.
  cbn [bind andb]. rewrite !Z.gtb_ltb.
  destruct (Z.ltb_spec (Money.minor this) (Money.minor other)),
    (Z.ltb_spec (Money.minor other) (Money.minor this)),
    (Z.eqb_spec (Money.minor this) (Money.minor other)); try lia;
    eexists; (split; [reflexivity |]); (split; [reflexivity |]);
    repeat split; intros; (discriminate || reflexivity || lia).
Qed.

Lemma compare_consistent_witness :
  exists c,
    Money.compare (Money.mkMoney 5 (mkCurrency "USD" 2 "$" None))
      (Money.OfMoney (Money.mkMoney 7 (mkCurrency "USD" 2 "$" None))) = Ok c
    /\ Money.compare (Money.mkMoney 7 (mkCurrency "USD" 2 "$" None))
         (Money.OfMoney (Money.mkMoney 5 (mkCurrency "USD" 2 "$" None)))
       = Ok (- c)
    /\ (c = 0
        <-> Money.equals (Money.mkMoney 5 (mkCurrency "USD" 2 "$" None))
              (Money.OfMoney (Money.mkMoney 7 (mkCurrency "USD" 2 "$" None)))
            = Ok true)
    /\ (c = -1
        <-> Money.lessThan (Money.mkMoney 5 (mkCurrency "USD" 2 "$" None))
              (Money.OfMoney (Money.mkMoney 7 (mkCurrency "USD" 2 "$" None)))
            = Ok true)
    /\ (c = 1
        <-> Money.greaterThan (Money.mkMoney 5 (mkCurrency "USD" 2 "$" None))
              (Money.OfMoney (Money.mkMoney 7 (mkCurrency "USD" 2 "$" None)))
            = Ok true).
Proof.
  apply (compare_consistent (Money.mkMoney 5 (mkCurrency "USD" 2 "$" None))
           (Money.mkMoney 7 (mkCurrency "USD" 2 "$" None))).
  reflexivity.
Defined.

(** ** Witnesses of the conservation lemmas *)

Lemma allocate_nonnegative_witness :
  exists parts,
    Allocation.allocate 101 ["0.5"; "0.25"; "0.25"]%string = Ok parts
    /\ List.length parts = 3%nat
    /\ AllocationModel.total_of parts = 101
    /\ forall i,
        (i < 3)%nat ->
        Z.abs (nth i parts 0 * 100 - 101 * nth i [50; 25; 25] 0) < 100.
Proof.
  assert (P : Allocation.map_throwing Allocation.scaleRatio
                ["0.5"; "0.25"; "0.25"]%string
              = Ok [Allocation.mkScaledRatio 5 1; Allocation.mkScaledRatio 25 2;
                    Allocation.mkScaledRatio 25 2]) by reflexivity.
  apply (allocate_nonnegative 101 ["0.5"; "0.25"; "0.25"]%string _
           ltac:(discriminate) P).
  - vm_compute. discriminate.
  - lia.
  - repeat constructor; vm_compute; discriminate.
Defined.

Lemma allocate_conserves_iff_witness :
  AllocationModel.total_of [-33; -33; -33] = -100 <-> -99 <= -100.
Proof.
  assert (P : Allocation.map_throwing Allocation.scaleRatio ["1"; "1"; "1"]%string
              = Ok [Allocation.mkScaledRatio 1 0; Allocation.mkScaledRatio 1 0;
                    Allocation.mkScaledRatio 1 0]) by reflexivity.
  apply (allocate_conserves_iff (-100) ["1"; "1"; "1"]%string _ [-33; -33; -33]
           ltac:(discriminate) P); [vm_compute; discriminate | reflexivity].
Defined.

(** ** Scalars as exact ratios *)

(** X12: a scalar written as an optional minus sign, integer digits, a point
    and fraction digits (one group may be empty) parses to the ratio of the
    signed number its digits denote over ten to the number of fraction
    digits. *)
Theorem parseMultiplier_value (negative : bool) (i f : string) :
  Decimal.all_digits i = true ->
  Decimal.all_digits f = true ->
  i <> EmptyString \/ f <> EmptyString ->
  Arithmetic.parseMultiplier
    (Str (if negative then String "-" (i ++ String "." f)
          else (i ++ String "." f)%string))
  = Ok (Arithmetic.mkRatio
          ((if negative then -1 else 1)
           * (Decimal.value i * 10 ^ Z.of_nat (String.length f) + Decimal.value f))
          (10 ^ Z.of_nat (String.length f))).
Proof.
  intros I F N. unfold Arithmetic.parseMultiplier, throw_if. cbn [toString].
  rewrite test_signed by reflexivity. rewrite test_append. cbn [JsString.test].
  rewrite (test_digits JsString.is_exponent_mark i digit_not_exponent I),
    (test_digits JsString.is_exponent_mark f digit_not_exponent F).
  change (JsString.is_exponent_mark ".") with false. cbn [orb bind].
  rewrite split_signed, split_at_point, split_digits by assumption.
  cbn [List.length]. change (2 <? 2)%nat with false. cbn [bind].
  unfold JsString.part_or_empty. cbn [nth].
  replace ((if negative then String "-" i else i) ++ f)%string
    with (if negative then String "-" (i ++ f) else (i ++ f)%string)
    by (destruct negative; reflexivity).
  rewrite BigInt_digits.
  - cbn [bind]. rewrite value_append.
    set (x := Decimal.value i * 10 ^ Z.of_nat (String.length f) + Decimal.value f).
    replace ((if negative then -1 else 1) * x) with (if negative then - x else x)
      by (destruct negative; lia).
    reflexivity.
  - rewrite all_digits_app, I, F. reflexivity.
  - destruct N as [N | N]; [destruct i | destruct i; [destruct f |]];
      (contradiction || discriminate).
Qed.

Lemma parseMultiplier_value_witness :
  Arithmetic.parseMultiplier (Str "-0.555")
  = Ok (Arithmetic.mkRatio (-1 * (0 * 10 ^ 3 + 555)) (10 ^ 3)).
Proof.
  apply (parseMultiplier_value true "0" "555");
    [reflexivity | reflexivity | left; discriminate].
Defined.

(** ** Ratios at a common scale *)

Lemma max_of_bound xs x : In x xs -> (x <= Allocation.max_of xs)%nat.
Proof.
  unfold Allocation.max_of.
  induction xs as [| y xs IH]; cbn [In fold_right]; [intros [] |].
  intros [-> | I]; [lia |]. specialize (IH I). lia.
Qed.

(** X5: [normalize] keeps every ratio's value: the normalized integer over ten
    to the largest number of fraction digits is the scaled integer over
    ten to its own number of fraction digits. *)
Theorem normalize_common_scale (scaledRatios : list Allocation.ScaledRatio) :
  Forall2
    (fun r w =>
       w * 10 ^ Z.of_nat (Allocation.ratio_decimals r)
       = Allocation.value r
         * 10 ^ Z.of_nat (Allocation.max_of
                            (map Allocation.ratio_decimals scaledRatios)))
    scaledRatios (Allocation.normalize scaledRatios).
Proof.
  unfold Allocation.normalize.
  set (m := Allocation.max_of (map Allocation.ratio_decimals scaledRatios)).
  assert (B : forall r, In r scaledRatios -> (Allocation.ratio_decimals r <= m)%nat).
  { intros r I. apply max_of_bound, in_map, I. }
  clearbody m. induction scaledRatios as [| r rs IH]; cbn [map]; constructor.
  - specialize (B r (or_introl eq_refl)).
    rewrite <- Z.mul_assoc, <- Z.pow_add_r by lia. do 2 f_equal. lia.
  - apply IH. intros r' I. apply B. right. exact I.
Qed.

(** ** Allocation depends on the proportions only *)

Section ScaleFacts.

Variable k : Z.
Hypothesis k_positive : 0 < k.

Lemma sum_of_scaled ws :
  Allocation.sum_of (map (Z.mul k) ws) = k * Allocation.sum_of ws.
Proof.
  rewrite !sum_of_total_of. unfold AllocationModel.total_of.
  induction ws as [| w ws IH]; cbn [map fold_right]; [lia |].
  rewrite IH. lia.
Qed.

Lemma nth_scaled ws i : nth i (map (Z.mul k) ws) 0 = k * nth i ws 0.
Proof.
  rewrite <- (map_nth (Z.mul k)). f_equal. lia.
Qed.

Lemma rank_scaled remainders i :
  LargestRemainder.rank (map (Z.mul k) remainders) i
  = LargestRemainder.rank remainders i.
Proof.
  unfold LargestRemainder.rank. rewrite length_map. f_equal.
  apply filter_ext. intros j. unfold LargestRemainder.precedes.
  rewrite !nth_scaled.
  destruct (Z.ltb_spec (k * nth i remainders 0) (k * nth j remainders 0)),
    (Z.ltb_spec (nth i remainders 0) (nth j remainders 0)),
    (Z.eqb_spec (k * nth j remainders 0) (k * nth i remainders 0)),
    (Z.eqb_spec (nth j remainders 0) (nth i remainders 0));
    reflexivity || nia.
Qed.

Lemma distribute_scaled shares remainders leftover :
  LargestRemainder.distribute shares (map (Z.mul k) remainders) leftover
  = LargestRemainder.distribute shares remainders leftover.
Proof.
  unfold LargestRemainder.distribute. apply map_ext. intros i.
  rewrite rank_scaled. reflexivity.
Qed.

End ScaleFacts.

(** X4: two ratio lists whose normalized ratios differ by a common positive
    factor, such as [[1, 1]] and [[0.5, 0.5]], are allocated alike, for
    every amount. *)
Theorem allocate_scale_invariant (amount k : Z) (ratios ratios' : list string)
  (scaledRatios scaledRatios' : list Allocation.ScaledRatio) :
  Allocation.map_throwing Allocation.scaleRatio ratios = Ok scaledRatios ->
  Allocation.map_throwing Allocation.scaleRatio ratios' = Ok scaledRatios' ->
  0 < k ->
  Allocation.normalize scaledRatios'
  = map (Z.mul k) (Allocation.normalize scaledRatios) ->
  ratios <> [] ->
  Allocation.sum_of (Allocation.normalize scaledRatios) <> 0 ->
  Allocation.allocate amount ratios' = Allocation.allocate amount ratios.
Proof.
  intros P P' K E N T.
  set (ws := Allocation.normalize scaledRatios) in *.
  set (total := Allocation.sum_of ws) in *.
  assert (T' : Allocation.sum_of (Allocation.normalize scaledRatios') = k * total)
    by (rewrite E; apply sum_of_scaled).
  assert (N' : ratios' <> []).
  { intros ->. cbn in P'. injection P' as <-.
    apply N, length_zero_iff_nil.
    rewrite <- (map_throwing_length _ _ _ P).
    apply (f_equal (@List.length Z)) in E.
    unfold ws, Allocation.normalize in E. rewrite !length_map in E.
    cbn [List.length] in E. lia. }
  rewrite (allocate_distribute amount ratios' scaledRatios' N' P')
    by (rewrite T'; nia).
  rewrite (allocate_distribute amount ratios scaledRatios N P) by exact T.
  fold ws. fold total. rewrite T', E, !map_map.
  assert (S : map (fun w => Z.quot (amount * (k * w)) (k * total)) ws
              = map (fun w => Z.quot (amount * w) total) ws).
  { apply map_ext. intros w.
    replace (amount * (k * w)) with (k * (amount * w)) by lia.
    apply Z.quot_mul_cancel_l; lia. }
  assert (R : map (fun w => Z.rem (amount * (k * w)) (k * total)) ws
              = map (Z.mul k) (map (fun w => Z.rem (amount * w) total) ws)).
  { rewrite map_map. apply map_ext. intros w.
    replace (amount * (k * w)) with (k * (amount * w)) by lia.
    apply Z.mul_rem_distr_l; lia. }
  rewrite S, R, (distribute_scaled k K). reflexivity.
Qed.

Lemma allocate_scale_invariant_witness :
  Allocation.allocate 101 ["0.5"; "0.5"]%string
  = Allocation.allocate 101 ["1"; "1"]%string.
Proof.
  assert (P : Allocation.map_throwing Allocation.scaleRatio ["1"; "1"]%string
              = Ok [Allocation.mkScaledRatio 1 0; Allocation.mkScaledRatio 1 0])
    by reflexivity.
  assert (P' : Allocation.map_throwing Allocation.scaleRatio ["0.5"; "0.5"]%string
               = Ok [Allocation.mkScaledRatio 5 1; Allocation.mkScaledRatio 5 1])
    by reflexivity.
  apply (allocate_scale_invariant 101 5 _ _ _ _ P P');
    [lia | reflexivity | discriminate | vm_compute; discriminate].
Defined.

(** ** Signs *)

(** X20: [abs] passes the non-negative guard, which otherwise raises exactly on
    negative amounts; [negate] undoes itself and exchanges [isPositive]
    with [isNegative]. *)
Theorem sign_operations (m : Money.Money) :
  Money.assertNonNegative (Money.abs m) = Ok tt
  /\ Money.minor (Money.abs m) = Z.abs (Money.minor m)
  /\ (Money.assertNonNegative m = Ok tt <-> 0 <= Money.minor m)
  /\ (Money.assertNonNegative m
      = Throw (Error "Money value must be non-negative")
      <-> Money.minor m < 0)
  /\ Money.negate (Money.negate m) = m
  /\ Money.isPositive (Money.negate m) = Money.isNegative m.
Proof.
  unfold Money.assertNonNegative, Money.abs, Money.negate, Money.isNegative,
    Money.isPositive, throw_if.
  cbn [Money.minor Money.currency]. rewrite Z.gtb_ltb.
  destruct m as [a c]. cbn [Money.minor Money.currency].
  destruct (Z.ltb_spec a 0) as [L | G].
  - destruct (Z.ltb_spec (- a) 0); [lia |].
    destruct (Z.ltb_spec 0 (- a)); [| lia].
    repeat split; try (intros; (discriminate || lia)); f_equal; lia.
  - destruct (Z.ltb_spec a 0); [lia |].
    destruct (Z.ltb_spec 0 (- a)); [lia |].
    repeat split; try (intros; (discriminate || lia)); f_equal; lia.
Qed.
